(** * Subdomain naming policy and availability resolver

    A shallow embedding of [src/lib/subdomain.ts] (class [SubdomainService])
    together with the properties its specification states about it.

    JavaScript strings are sequences of UTF-16 code units; they are modelled
    as lists of code units, so that [length], the regular expressions without
    the [u] flag, [startsWith], [includes] and [split] all work on the same
    positions as in the source. *)

From Stdlib Require Import String Ascii DecimalString.
From Stdlib Require DecimalPos DecimalZ Finite.
From Stdlib Require Import List NArith ZArith Arith Bool Lia.
Import ListNotations.

Set Implicit Arguments.

(** ** JavaScript strings *)

Module JS.

Definition code_unit := N.
Definition jsstring := list code_unit.

(** The code units of an ASCII literal of the source. *)
Definition lit (s : string) : jsstring :=
  map N_of_ascii (list_ascii_of_string s).

Definition hyphen : code_unit := 45%N.
Definition dot : code_unit := 46%N.

Definition is_hyphen (c : code_unit) : bool := (c =? hyphen)%N.

(** The character class [a-z]. *)
Definition is_lower (c : code_unit) : bool := ((97 <=? c) && (c <=? 122))%N.
(** The character class [0-9]. *)
Definition is_digit (c : code_unit) : bool := ((48 <=? c) && (c <=? 57))%N.
(** The character class [a-z0-9]. *)
Definition class_az09 (c : code_unit) : bool := is_lower c || is_digit c.
(** The character class [a-z0-9-]. *)
Definition class_az09h (c : code_unit) : bool := class_az09 c || is_hyphen c.

(** [===] on strings. *)
Fixpoint eqb (s t : jsstring) : bool :=
  match s, t with
  | [], [] => true
  | c :: s', d :: t' => (c =? d)%N && eqb s' t'
  | _, _ => false
  end.

(** [s.startsWith(p)] *)
Fixpoint startsWith (p s : jsstring) : bool :=
  match p, s with
  | [], _ => true
  | _ :: _, [] => false
  | c :: p', d :: s' => (c =? d)%N && startsWith p' s'
  end.

(** [s.endsWith(p)] *)
Definition endsWith (p s : jsstring) : bool :=
  startsWith (rev p) (rev s).

(** [s.includes(p)]: [p] occurs at some position of [s]. *)
Fixpoint includes (p s : jsstring) : bool :=
  startsWith p s ||
  match s with
  | [] => false
  | _ :: s' => includes p s'
  end.

(** [arr.includes(x)] on an array of strings. *)
Definition array_includes (x : jsstring) (arr : list jsstring) : bool :=
  existsb (eqb x) arr.

(** [s.substring(start, end)]: the arguments are swapped when
    [start > end] and clamped to the length. *)
Definition substring (s : jsstring) (start end_ : nat) : jsstring :=
  skipn (Nat.min start end_) (firstn (Nat.max start end_) s).

(** [s.split(sep)] for a one-code-unit separator: never empty, one part more
    than there are separators.  [split_from sep cur s] carries the part
    being read, in reverse. *)
Fixpoint split_from (sep : code_unit) (cur : jsstring) (s : jsstring)
  : list jsstring :=
  match s with
  | [] => [rev cur]
  | c :: s' =>
      if (c =? sep)%N then rev cur :: split_from sep [] s'
      else split_from sep (c :: cur) s'
  end.

Definition split (sep : code_unit) (s : jsstring) : list jsstring :=
  split_from sep [] s.

(** [`${i}`] for an integer [i]: its decimal digits, after a minus sign
    when it is negative. *)
Definition of_number (i : Z) : jsstring :=
  lit (NilEmpty.string_of_int (Z.to_int i)).

(** [/^[a-z0-9-]+$/.test(s)]: one or more code units, all in the class. *)
Definition test_az09h_plus (s : jsstring) : bool :=
  match s with
  | [] => false
  | _ :: _ => forallb class_az09h s
  end.

(** [s.replace(/[^a-z0-9]/g, '-')]: every code unit outside the class
    becomes a hyphen. *)
Definition replace_non_az09 (s : jsstring) : jsstring :=
  map (fun c => if class_az09 c then c else hyphen) s.

(** [s.replace(/-+/g, '-')]: the greedy match takes a whole run of hyphens
    and puts one hyphen for it.  [in_run] tells that the previous code unit
    belonged to the run being consumed. *)
Fixpoint replace_hyphen_runs_from (in_run : bool) (s : jsstring) : jsstring :=
  match s with
  | [] => []
  | c :: s' =>
      if is_hyphen c
      then if in_run then replace_hyphen_runs_from true s'
           else hyphen :: replace_hyphen_runs_from true s'
      else c :: replace_hyphen_runs_from false s'
  end.

Definition replace_hyphen_runs (s : jsstring) : jsstring :=
  replace_hyphen_runs_from false s.

(** [s.replace(/^-|-$/g, '')]: without the [m] flag [^] matches at index 0
    only and [$] at the end of input only, so a hyphen is removed when it is
    the first or the last code unit.  [at_start] tells index 0. *)
Fixpoint replace_edge_hyphens_from (at_start : bool) (s : jsstring)
  : jsstring :=
  match s with
  | [] => []
  | c :: s' =>
      if is_hyphen c && (at_start || match s' with [] => true | _ => false end)
      then replace_edge_hyphens_from false s'
      else c :: replace_edge_hyphens_from false s'
  end.

Definition replace_edge_hyphens (s : jsstring) : jsstring :=
  replace_edge_hyphens_from true s.

End JS.

Import JS.

(** ** Policy engine *)

Module Format.
(** The result of [validateFormat]. *)
Record result := { isValid : bool; message : string }.
End Format.

(** [interface SubdomainValidation] *)
Record SubdomainValidation := {
  isValid : bool;
  isAvailable : bool;
  message : string
}.

Definition RESERVED_SUBDOMAINS : list jsstring :=
  map lit
    [ "www"; "api"; "admin"; "app"; "mail"; "ftp"; "blog"; "shop"; "store";
      "support"; "help"; "docs"; "dev"; "test"; "staging"; "prod";
      "production";
      "dashboard"; "portal"; "login"; "register"; "auth"; "account";
      "profile";
      "settings"; "config"; "status"; "health"; "ping"; "webhook";
      "callback";
      "assets"; "static"; "cdn"; "media"; "images"; "files"; "uploads" ]%string.

Definition msg_too_short : string :=
  "Subdomain must be at least 3 characters long".
Definition msg_too_long : string :=
  "Subdomain must be no more than 30 characters long".
Definition msg_charset : string :=
  "Subdomain can only contain lowercase letters, numbers, and hyphens".
Definition msg_edge_hyphen : string :=
  "Subdomain cannot start or end with a hyphen".
Definition msg_consecutive : string :=
  "Subdomain cannot contain consecutive hyphens".
Definition msg_reserved : string :=
  "This subdomain is reserved and cannot be used".
Definition msg_valid_format : string :=
  "Valid subdomain format".
Definition msg_available : string := "Subdomain is available".
Definition msg_taken : string := "Subdomain is already taken".

Definition reject (m : string) : Format.result :=
  {| Format.isValid := false; Format.message := m |}.

(** [static validateFormat(subdomain)] *)
Definition validateFormat (subdomain : jsstring) : Format.result :=
  if length subdomain <? 3 then reject msg_too_short
  else if 30 <? length subdomain then reject msg_too_long
  else if negb (test_az09h_plus subdomain) then reject msg_charset
  else if startsWith [hyphen] subdomain || endsWith [hyphen] subdomain
       then reject msg_edge_hyphen
  else if includes [hyphen; hyphen] subdomain then reject msg_consecutive
  else if array_includes subdomain RESERVED_SUBDOMAINS
       then reject msg_reserved
  else {| Format.isValid := true; Format.message := msg_valid_format |}.

Section Normalize.

(** [String.prototype.toLowerCase] belongs to the runtime and follows the
    Unicode case tables; it is a parameter here.  What the examples need
    is its behaviour on ASCII text, stated by [lowers_ascii] below. *)
Variable toLowerCase : jsstring -> jsstring.

(** [static generateSubdomain(companyName)] *)
Definition generateSubdomain (companyName : jsstring) : jsstring :=
  substring
    (replace_edge_hyphens
       (replace_hyphen_runs
          (replace_non_az09 (toLowerCase companyName))))
    0 30.

End Normalize.

(** Lowercasing of ASCII text: [A-Z] moves to [a-z], the rest stays. *)
Definition ascii_lower (c : code_unit) : code_unit :=
  if ((65 <=? c) && (c <=? 90))%N then (c + 32)%N else c.

Definition is_ascii (c : code_unit) : bool := (c <? 128)%N.

(** What every [toLowerCase] does on ASCII text. *)
Definition lowers_ascii (toLowerCase : jsstring -> jsstring) : Prop :=
  forall s, forallb is_ascii s = true -> toLowerCase s = map ascii_lower s.

(** A [toLowerCase] that knows ASCII only. *)
Definition toLowerCase_ascii_only (s : jsstring) : jsstring :=
  map ascii_lower s.

(** [static getCurrentSubdomain()], from the hostname on:
    the part after [window.location.hostname] is read. *)
Definition extractSubdomainFromHost (hostname : jsstring) : option jsstring :=
  let parts := split dot hostname in
  if eqb hostname (lit "localhost") || eqb hostname (lit "127.0.0.1")
  then None
  else if 3 <=? length parts then nth_error parts 0
  else None.

(** [window] is [undefined] outside a browser; otherwise it gives the
    hostname of the location. *)
Definition getCurrentSubdomain (window : option jsstring) : option jsstring :=
  match window with
  | None => None
  | Some hostname => extractSubdomainFromHost hostname
  end.

(** [process.env]: a variable is a string or is [undefined]. *)
Definition ProcessEnv := string -> option jsstring.

(** [a || b] where [a] is a string or [undefined]: the empty string is
    falsy as [undefined] is. *)
Definition or_else (a : option jsstring) (b : jsstring) : jsstring :=
  match a with
  | Some (c :: a') => c :: a'
  | Some [] => b
  | None => b
  end.

(** [a === b] where [a] is a string or [undefined] and [b] a string. *)
Definition is_string (a : option jsstring) (b : jsstring) : bool :=
  match a with
  | Some a' => eqb a' b
  | None => false
  end.

(** [static getSubdomainUrl(subdomain, protocol)] *)
Definition getSubdomainUrl (env : ProcessEnv) (subdomain protocol : jsstring)
  : jsstring :=
  let domain :=
    if is_string (env "NODE_ENV"%string) (lit "production")
    then or_else (env "VITE_DOMAIN"%string) (lit "uproom.com")
    else lit "localhost:8080" in
  protocol ++ lit "://" ++ subdomain ++ lit "." ++ domain.

(** [protocol] is 'https' when the caller leaves it out. *)
Definition getSubdomainUrl_default (env : ProcessEnv) (subdomain : jsstring)
  : jsstring :=
  getSubdomainUrl env subdomain (lit "https").

(** Two settings of [process.env] for the examples. *)
Definition production_env : ProcessEnv :=
  fun name =>
    if String.eqb name "NODE_ENV" then Some (lit "production") else None.

Definition development_env : ProcessEnv :=
  fun name =>
    if String.eqb name "NODE_ENV" then Some (lit "development") else None.

(** ** Availability resolver *)

(** A row of [select('id')]. *)
Record Row := { id : jsstring }.

(** The [error] object of a response; [code] is [undefined] on errors that
    carry none. *)
Record PostgrestError := { code : option jsstring; details : string }.

(** A thrown value. *)
Inductive Exn := JsError (reason : string).

(** What awaiting
    [supabase.from('companies').select('id').eq('subdomain', s).single()]
    gives: a response [{ data, error }], or the promise is rejected. *)
Inductive QueryResult :=
| Response (data : option Row) (error : option PostgrestError)
| Rejected (e : Exn).

(** A call of [console.error(label, payload)]. *)
Inductive Logged :=
| LoggedError (label : string) (payload : PostgrestError)
| LoggedExn (label : string) (payload : Exn).

Definition PGRST116 : jsstring := lit "PGRST116".

(** [error.code === 'PGRST116'] *)
Definition code_is_PGRST116 (e : PostgrestError) : bool :=
  match code e with
  | Some c => eqb c PGRST116
  | None => false
  end.

Definition msg_check_error : string :=
  "Error checking subdomain availability:".

Inductive Completion (A : Type) :=
| Normal (a : A)
| Throw (e : Exn).

Arguments Normal {A} a.
Arguments Throw {A} e.

Section Resolver.

(** The store behind the [supabase] client, with whatever decides its
    answers (rows, connectivity, time), and one round trip to it. *)
Variable World : Type.
Variable single : jsstring -> World -> QueryResult * World.

(** What a run can touch: the store, and two journals, of the keys looked up
    and of the console. *)
Record Env := {
  world : World;
  lookups : list jsstring;
  console : list Logged
}.

Definition M (A : Type) : Type := Env -> Completion A * Env.

Definition ret {A} (a : A) : M A := fun env => (Normal a, env).

Definition bind {A B} (m : M A) (k : A -> M B) : M B :=
  fun env =>
    match m env with
    | (Normal a, env') => k a env'
    | (Throw e, env') => (Throw e, env')
    end.

(** [try { body } catch (error) { handler }] *)
Definition try_catch {A} (body : M A) (handler : Exn -> M A) : M A :=
  fun env =>
    match body env with
    | (Normal a, env') => (Normal a, env')
    | (Throw e, env') => handler e env'
    end.

Definition console_error (entry : Logged) : M unit :=
  fun env =>
    (Normal tt,
     {| world := world env;
        lookups := lookups env;
        console := console env ++ [entry] |}).

(** [await supabase.from('companies').select('id')
          .eq('subdomain', subdomain).single()] *)
Definition await_single (subdomain : jsstring)
  : M (option Row * option PostgrestError) :=
  fun env =>
    let (r, w) := single subdomain (world env) in
    let env' := {| world := w;
                   lookups := lookups env ++ [subdomain];
                   console := console env |} in
    match r with
    | Response data error => (Normal (data, error), env')
    | Rejected e => (Throw e, env')
    end.

(** [static async checkAvailability(subdomain)] *)
Definition checkAvailability (subdomain : jsstring) : M bool :=
  try_catch
    (bind (await_single subdomain) (fun '(data, error) =>
       if match error with Some e => code_is_PGRST116 e | None => false end
       then ret true
       else
         match error with
         | Some e =>
             bind (console_error (LoggedError msg_check_error e))
                  (fun _ => ret false)
         | None => ret false
         end))
    (fun error =>
       bind (console_error (LoggedExn msg_check_error error))
            (fun _ => ret false)).

(** [static async validateSubdomain(subdomain)] *)
Definition validateSubdomain (subdomain : jsstring) : M SubdomainValidation :=
  let formatValidation := validateFormat subdomain in
  if negb (Format.isValid formatValidation)
  then ret {| isValid := false;
              isAvailable := false;
              message := Format.message formatValidation |}
  else
    bind (checkAvailability subdomain) (fun available =>
      ret {| isValid := true;
             isAvailable := available;
             message := if available then msg_available else msg_taken |}).

(** [`${baseSubdomain}-${i}`] *)
Definition alternative_of (baseSubdomain : jsstring) (i : Z) : jsstring :=
  baseSubdomain ++ [hyphen] ++ of_number i.

(** The loop [for (let i = 1; i <= count; i++)] from the value [i] of the
    counter on, with [remaining] passes to go. *)
Fixpoint alternatives_loop (baseSubdomain : jsstring) (remaining : nat)
  (i : Z) (alternatives : list jsstring) : M (list jsstring) :=
  match remaining with
  | O => ret alternatives
  | S remaining' =>
      let alternative := alternative_of baseSubdomain i in
      bind (validateSubdomain alternative) (fun validation =>
        alternatives_loop baseSubdomain remaining' (i + 1)
          (if isValid validation && isAvailable validation
           then alternatives ++ [alternative]
           else alternatives))
  end.

(** [static async generateAlternatives(baseSubdomain, count)] for an integer
    [count]: the counter runs over 1, ..., [count], no pass at all when
    [count < 1].  JavaScript numbers are exact integers, printed in plain
    decimal, well beyond any count of round trips a run can complete. *)
Definition generateAlternatives (baseSubdomain : jsstring) (count : Z)
  : M (list jsstring) :=
  alternatives_loop baseSubdomain (Z.to_nat count) 1 [].

(** [count] is 5 when the caller leaves it out. *)
Definition generateAlternatives_default (baseSubdomain : jsstring)
  : M (list jsstring) :=
  generateAlternatives baseSubdomain 5.

End Resolver.

Arguments world {World} _.
Arguments lookups {World} _.
Arguments console {World} _.

(** *** An in-memory store

    The [companies] table as a list of rows; nothing fails and nothing
    changes, a key either has its row or has none. *)

Record Company := { company_id : jsstring; subdomain : jsstring }.

Definition no_rows : PostgrestError :=
  {| code := Some PGRST116;
     details := "The result contains 0 rows" |}.

Definition table_answer (table : list Company) (key : jsstring)
  : QueryResult :=
  match find (fun r => eqb (subdomain r) key) table with
  | Some r => Response (Some {| id := company_id r |}) None
  | None => Response None (Some no_rows)
  end.

Definition table_single (table : list Company) (key : jsstring) (w : unit)
  : QueryResult * unit :=
  (table_answer table key, w).

Definition fresh (W : Type) (w : W) : Env W :=
  {| world := w; lookups := []; console := [] |}.

Definition acme_table : list Company :=
  [ {| company_id := lit "c1"; subdomain := lit "acme" |};
    {| company_id := lit "c2"; subdomain := lit "acme-1" |};
    {| company_id := lit "c3"; subdomain := lit "acme-3" |} ].

(** *** A store out of reach

    Every round trip is rejected, as when the network is down. *)

Definition unreachable_single (key : jsstring) (w : unit)
  : QueryResult * unit :=
  (Rejected (JsError "fetch failed"), w).

(** ** The specification's notions *)

(** *** The format rules, in their order *)

Inductive Rule :=
| MinLength | MaxLength | Charset | EdgeHyphen | ConsecutiveHyphens
| NotReserved.

Definition rules_in_order : list Rule :=
  [MinLength; MaxLength; Charset; EdgeHyphen; ConsecutiveHyphens; NotReserved].

(** The place of a rule in the order, from 1. *)
Definition rank (r : Rule) : nat :=
  match r with
  | MinLength => 1
  | MaxLength => 2
  | Charset => 3
  | EdgeHyphen => 4
  | ConsecutiveHyphens => 5
  | NotReserved => 6
  end.

Definition in_az09h (c : code_unit) : Prop :=
  (97 <= c <= 122)%N \/ (48 <= c <= 57)%N \/ c = 45%N.

(** What it is for a string to satisfy a rule. *)
Definition satisfies (r : Rule) (s : jsstring) : Prop :=
  match r with
  | MinLength => 3 <= length s
  | MaxLength => length s <= 30
  | Charset => s <> [] /\ forall c, In c s -> in_az09h c
  | EdgeHyphen =>
      (forall t, s <> hyphen :: t) /\ (forall t, s <> t ++ [hyphen])
  | ConsecutiveHyphens => forall u v, s <> u ++ hyphen :: hyphen :: v
  | NotReserved => ~ In s RESERVED_SUBDOMAINS
  end.

(** The message that rejects a string violating the rule. *)
Definition rule_message (r : Rule) : string :=
  match r with
  | MinLength => msg_too_short
  | MaxLength => msg_too_long
  | Charset => msg_charset
  | EdgeHyphen => msg_edge_hyphen
  | ConsecutiveHyphens => msg_consecutive
  | NotReserved => msg_reserved
  end.

(** The answer to a string that passes every test. *)
Definition accept : Format.result :=
  {| Format.isValid := true; Format.message := msg_valid_format |}.

(** The test the source makes for a rule; true when the rule is violated. *)
Definition violated (r : Rule) (s : jsstring) : bool :=
  match r with
  | MinLength => length s <? 3
  | MaxLength => 30 <? length s
  | Charset => negb (test_az09h_plus s)
  | EdgeHyphen => startsWith [hyphen] s || endsWith [hyphen] s
  | ConsecutiveHyphens => includes [hyphen; hyphen] s
  | NotReserved => array_includes s RESERVED_SUBDOMAINS
  end.

(** *** Normalization, step by step as the specification words it *)

Module Spec.

(** Replace every character outside [a-z0-9] with a hyphen. *)
Definition hyphenate_outside_az09 (s : jsstring) : jsstring :=
  map (fun c => if is_lower c || is_digit c then c else hyphen) s.

(** Collapse consecutive hyphens into one: a hyphen followed by a hyphen
    goes away. *)
Fixpoint collapse_hyphens (s : jsstring) : jsstring :=
  match s with
  | [] => []
  | c :: s' =>
      match s' with
      | d :: _ =>
          if is_hyphen c && is_hyphen d then collapse_hyphens s'
          else c :: collapse_hyphens s'
      | [] => [c]
      end
  end.

(** Drop all the hyphens a string starts with. *)
Fixpoint strip_leading_hyphens (s : jsstring) : jsstring :=
  match s with
  | [] => []
  | c :: s' => if is_hyphen c then strip_leading_hyphens s' else s
  end.

Definition strip_trailing_hyphens (s : jsstring) : jsstring :=
  rev (strip_leading_hyphens (rev s)).

(** Strip leading and trailing hyphens. *)
Definition strip_hyphens (s : jsstring) : jsstring :=
  strip_trailing_hyphens (strip_leading_hyphens s).

(** Truncate to [n] characters. *)
Definition truncate (n : nat) (s : jsstring) : jsstring := firstn n s.

Definition normalize (toLowerCase : jsstring -> jsstring) (displayName : jsstring)
  : jsstring :=
  truncate 30
    (strip_hyphens
       (collapse_hyphens
          (hyphenate_outside_az09 (toLowerCase displayName)))).

(** The leftmost label of a host name: what comes before its first dot. *)
Fixpoint leftmost_label (hostname : jsstring) : jsstring :=
  match hostname with
  | [] => []
  | c :: h => if (c =? dot)%N then [] else c :: leftmost_label h
  end.

(** The number of dot-separated parts: one more than there are dots. *)
Definition parts_count (hostname : jsstring) : nat :=
  S (count_occ N.eq_dec hostname dot).

Definition is_loopback (hostname : jsstring) : Prop :=
  hostname = lit "localhost" \/ hostname = lit "127.0.0.1".

End Spec.

(** *** Shapes of strings used in the proofs *)

Definition head_is_hyphen (s : jsstring) : bool :=
  match s with
  | c :: _ => is_hyphen c
  | [] => false
  end.

Definition drop_head_hyphen (s : jsstring) : jsstring :=
  match s with
  | c :: t => if is_hyphen c then t else s
  | [] => []
  end.

(** No hyphen is followed by a hyphen. *)
Fixpoint no_adjacent_hyphens (s : jsstring) : bool :=
  match s with
  | c :: s' =>
      negb (is_hyphen c && head_is_hyphen s') && no_adjacent_hyphens s'
  | [] => true
  end.

(** *** The answers of the store *)

(** The store reports that no row matches: the response carries the error
    whose code is [PGRST116] (the comment of the source at that test:
    no rows returned). *)
Definition reports_no_rows (q : QueryResult) : Prop :=
  exists data e, q = Response data (Some e) /\ code e = Some PGRST116.

(** The lookup failed: the promise was rejected, or the response carries an
    error other than the no-rows one. *)
Definition lookup_failed (q : QueryResult) : Prop :=
  (exists x, q = Rejected x) \/
  (exists data e, q = Response data (Some e) /\ code e <> Some PGRST116).

(** The store found a record: a response with data and no error. *)
Definition reports_record (q : QueryResult) : Prop :=
  exists row, q = Response (Some row) None.

Section ResolverSpec.

Variable World : Type.
Variable single : jsstring -> World -> QueryResult * World.

(** The candidates [base-1], ..., [base-count], in this order. *)
Definition candidates (base : jsstring) (count : Z) : list jsstring :=
  map (fun i => alternative_of base (Z.of_nat i)) (seq 1 (Z.to_nat count)).

(** Run the full [validateSubdomain] on each candidate in turn and keep
    those that are valid and available. *)
Fixpoint keep_passing (cands : list jsstring) : M World (list jsstring) :=
  match cands with
  | [] => ret []
  | c :: cs =>
      bind (validateSubdomain single c) (fun v =>
        bind (keep_passing cs) (fun kept =>
          ret (if isValid v && isAvailable v then c :: kept else kept)))
  end.

(** A store whose answer for a key is the same in every state, and which
    reading leaves as it is. *)
Definition steady (answer : jsstring -> QueryResult) : Prop :=
  forall key w, fst (single key w) = answer key.

End ResolverSpec.

(** A candidate passes against a steady store. *)
Definition passes (answer : jsstring -> QueryResult) (c : jsstring) : bool :=
  Format.isValid (validateFormat c) &&
  match answer c with
  | Response _ (Some e) => code_is_PGRST116 e
  | _ => false
  end.

(** ** The environment of the API server ([api/src/lib/env.ts]) *)

Module EnvTs.

Definition newline : code_unit := 10%N.

(** [arr.join(sep)] *)
Fixpoint join (sep : jsstring) (arr : list jsstring) : jsstring :=
  match arr with
  | [] => []
  | x :: arr' =>
      match arr' with
      | [] => x
      | _ :: _ => x ++ sep ++ join sep arr'
      end
  end.

(** [!value] for a value that is a string or [undefined]. *)
Definition falsy (value : option jsstring) : bool :=
  match value with
  | Some (_ :: _) => false
  | Some [] => true
  | None => true
  end.

(** [a || b] where both are a string or [undefined]. *)
Definition or_value (a b : option jsstring) : option jsstring :=
  if falsy a then b else a.

(** [const requiredEnvVars = { ... }], as [Object.entries] lists it. *)
Definition requiredEnvVars (penv : ProcessEnv)
  : list (string * option jsstring) :=
  [ ("SUPABASE_URL", penv "SUPABASE_URL");
    ("SUPABASE_SERVICE_ROLE_KEY", penv "SUPABASE_SERVICE_ROLE_KEY");
    ("DATABASE_URL", penv "DATABASE_URL") ]%string.

(** The loop that fills [missingVars]. *)
Definition missingVars (penv : ProcessEnv) : list string :=
  fold_left
    (fun missing entry =>
       if falsy (snd entry) then missing ++ [fst entry] else missing)
    (requiredEnvVars penv) [].

(** The message of the first [throw]. *)
Definition missing_message (missing : list string) : jsstring :=
  lit "Missing required environment variables: "
  ++ join (lit ", ") (map lit missing) ++ [newline]
  ++ lit "Please set these variables in your Railway environment settings:"
  ++ [newline]
  ++ join [newline] (map (fun varName => lit "- " ++ lit varName) missing).

Definition https_message : jsstring :=
  lit "SUPABASE_URL must be a valid HTTPS URL starting with https://".

(** What calling a method on [undefined] throws. *)
Definition type_error_message : jsstring :=
  lit "Cannot read properties of undefined (reading 'startsWith')".

(** Loading the module yields its export and what it logged, or throws. *)
Inductive Loading (A : Type) :=
| Loaded (exported : A) (logged : list jsstring)
| Thrown (error_message : jsstring).

Arguments Loaded {A} exported logged.
Arguments Thrown {A} error_message.

Section Load.

(** Numbers, [parseInt] and the printing of a number in a template belong
    to the runtime. *)
Variable Number : Type.
Variable parseInt : jsstring -> Number.
Variable show : Number -> jsstring.

(** [interface EnvConfig].  The casts [as string] do nothing when the
    program runs, so a field filled through one holds whatever the
    variable held. *)
Record EnvConfig := {
  SUPABASE_URL : option jsstring;
  SUPABASE_SERVICE_ROLE_KEY : option jsstring;
  SUPABASE_ANON_KEY : jsstring;
  DATABASE_URL : option jsstring;
  DIRECT_URL : option jsstring;
  PORT : Number;
  NODE_ENV : jsstring;
  FRONTEND_URL : jsstring;
  CORS_ORIGIN : option jsstring;
  RATE_LIMIT_MAX : Number;
  RATE_LIMIT_TIME_WINDOW : jsstring
}.

(** [export const env: EnvConfig = { ... }] *)
Definition make_env (penv : ProcessEnv) : EnvConfig :=
  {| SUPABASE_URL := penv "SUPABASE_URL"%string;
     SUPABASE_SERVICE_ROLE_KEY := penv "SUPABASE_SERVICE_ROLE_KEY"%string;
     SUPABASE_ANON_KEY := or_else (penv "SUPABASE_ANON_KEY"%string) [];
     DATABASE_URL := penv "DATABASE_URL"%string;
     DIRECT_URL :=
       or_value (penv "DIRECT_URL"%string) (penv "DATABASE_URL"%string);
     PORT := parseInt (or_else (penv "PORT"%string) (lit "3333"));
     NODE_ENV := or_else (penv "NODE_ENV"%string) (lit "development");
     FRONTEND_URL :=
       or_else (penv "FRONTEND_URL"%string) (lit "http://localhost:5173");
     CORS_ORIGIN := penv "CORS_ORIGIN"%string;
     RATE_LIMIT_MAX :=
       parseInt (or_else (penv "RATE_LIMIT_MAX"%string) (lit "100"));
     RATE_LIMIT_TIME_WINDOW :=
       or_else (penv "RATE_LIMIT_TIME_WINDOW"%string) (lit "1 minute") |}.

(** The check mark and the cross of the last two lines logged. *)
Definition set_mark : jsstring := 10003%N :: lit " Set".
Definition missing_mark : jsstring := 10007%N :: lit " Missing".

(** The six calls of [console.log]. *)
Definition log_lines (env : EnvConfig) : list jsstring :=
  [ lit "Environment configuration loaded:";
    lit "- NODE_ENV: " ++ NODE_ENV env;
    lit "- PORT: " ++ show (PORT env);
    lit "- FRONTEND_URL: " ++ FRONTEND_URL env;
    lit "- SUPABASE_URL: "
      ++ (if falsy (SUPABASE_URL env) then missing_mark else set_mark);
    lit "- DATABASE_URL: "
      ++ (if falsy (DATABASE_URL env) then missing_mark else set_mark) ].

(** The module, top to bottom. *)
Definition load (penv : ProcessEnv) : Loading EnvConfig :=
  let missing := missingVars penv in
  if 0 <? length missing then Thrown (missing_message missing)
  else
    match penv "SUPABASE_URL"%string with
    | None => Thrown type_error_message
    | Some url =>
        if negb (startsWith (lit "https://") url) then Thrown https_message
        else Loaded (make_env penv) (log_lines (make_env penv))
    end.

End Load.

(** A setting that loads, and one that lacks two variables. *)
Definition good_penv : ProcessEnv :=
  fun name =>
    if String.eqb name "SUPABASE_URL" then Some (lit "https://x.supabase.co")
    else if String.eqb name "SUPABASE_SERVICE_ROLE_KEY" then Some (lit "key")
    else if String.eqb name "DATABASE_URL" then Some (lit "postgres://db")
    else None.

Definition poor_penv : ProcessEnv :=
  fun name =>
    if String.eqb name "SUPABASE_SERVICE_ROLE_KEY" then Some (lit "key")
    else if String.eqb name "DATABASE_URL" then Some []
    else None.

End EnvTs.

(** ** The origins the API server admits ([getCorsOrigins]) *)

Module Cors.

Definition comma : code_unit := 44%N.

(** The white space and line terminators that [trim] removes. *)
Definition is_whitespace (c : code_unit) : bool :=
  ((9 <=? c) && (c <=? 13) || (c =? 32) || (c =? 160) || (c =? 5760)
   || (8192 <=? c) && (c <=? 8202) || (c =? 8232) || (c =? 8233)
   || (c =? 8239) || (c =? 8287) || (c =? 12288) || (c =? 65279))%N.

Fixpoint trimStart (s : jsstring) : jsstring :=
  match s with
  | [] => []
  | c :: s' => if is_whitespace c then trimStart s' else s
  end.

(** [s.trim()] *)
Definition trim (s : jsstring) : jsstring :=
  rev (trimStart (rev (trimStart s))).

(** The character class [A-Z]. *)
Definition is_upper (c : code_unit) : bool := ((65 <=? c) && (c <=? 90))%N.

(** The character class [a-zA-Z0-9-]. *)
Definition class_label (c : code_unit) : bool :=
  is_lower c || is_upper c || is_digit c || is_hyphen c.

(** A regular expression of the shape [/^before[a-zA-Z0-9-]+after$/], all
    of [regexOrigins] have it. *)
Record OriginRegExp := { before : jsstring; after : jsstring }.

(** [re.test(s)]: [s] is [before], then one or more code units of the
    class, then [after]. *)
Definition test (re : OriginRegExp) (s : jsstring) : bool :=
  startsWith (before re) s && endsWith (after re) s &&
  (length (before re) + length (after re) <? length s) &&
  forallb class_label
    (firstn (length s - length (before re) - length (after re))
       (skipn (length (before re)) s)).

(** An entry of the list: a string or a regular expression. *)
Inductive Origin :=
| OriginString (s : jsstring)
| OriginPattern (re : OriginRegExp).

Definition defaultOrigins : list jsstring :=
  map lit
    [ "http://localhost:8080";
      "http://localhost:5173";
      "http://127.0.0.1:8080";
      "http://127.0.0.1:5173";
      "https://uproom.com";
      "http://uproom.com";
      "https://www.starvibe.space";
      "https://starvibe.space" ]%string.

Definition regexOrigins : list OriginRegExp :=
  [ {| before := lit "http://"; after := lit ".localhost:8080" |};
    {| before := lit "http://"; after := lit ".starvibe.space" |};
    {| before := lit "http://"; after := lit ".localhost:5173" |};
    {| before := lit "http://"; after := lit ".127.0.0.1:8080" |};
    {| before := lit "http://"; after := lit ".127.0.0.1:5173" |};
    {| before := lit "https://"; after := lit ".uproom.com" |};
    {| before := lit "http://"; after := lit ".uproom.com" |} ].

(** [const getCorsOrigins = () => ...], given [config.CORS_ORIGIN]: the
    configured list is taken when the setting is a string that is not
    empty. *)
Definition getCorsOrigins (cors_origin : option jsstring) : list Origin :=
  match cors_origin with
  | Some (c :: value) =>
      map (fun origin => OriginString (trim origin))
          (split comma (c :: value))
  | Some [] | None =>
      map OriginString defaultOrigins ++ map OriginPattern regexOrigins
  end.

End Cors.

(** ** Facts about the string operations *)

Lemma eqb_eq (s t : jsstring) : eqb s t = true <-> s = t.
Proof.
  revert t; induction s as [|c s IH]; intros [|d t]; simpl;
    try (split; [discriminate | discriminate]); [tauto|].
  rewrite andb_true_iff, N.eqb_eq, IH.
  split; [intros [-> ->]; reflexivity | intros [= -> ->]; auto].
Qed.

Lemma eqb_refl (s : jsstring) : eqb s s = true.
Proof. apply eqb_eq; reflexivity. Qed.

Lemma startsWith_spec (p s : jsstring) :
  startsWith p s = true <-> exists t, s = p ++ t.
Proof.
  revert s; induction p as [|c p IH]; intros s; simpl.
  - split; [intros _; exists s; reflexivity | reflexivity].
  - destruct s as [|d s].
    + split; [discriminate | intros [t [=]]].
    + rewrite andb_true_iff, N.eqb_eq, IH. split.
      * intros [-> [t ->]]. exists t; reflexivity.
      * intros [t [= -> ->]]. split; [reflexivity | exists t; reflexivity].
Qed.

Lemma endsWith_spec (p s : jsstring) :
  endsWith p s = true <-> exists t, s = t ++ p.
Proof.
  unfold endsWith. rewrite startsWith_spec. split.
  - intros [t Ht]. exists (rev t).
    rewrite <- (rev_involutive s), Ht, rev_app_distr, rev_involutive.
    reflexivity.
  - intros [t ->]. exists (rev t). apply rev_app_distr.
Qed.

Lemma includes_spec (p s : jsstring) :
  includes p s = true <-> exists u v, s = u ++ p ++ v.
Proof.
  induction s as [|d s IH].
  - simpl. rewrite orb_false_r, startsWith_spec. split.
    + intros [t Ht]. exists [], t. exact Ht.
    + intros [u [v H]]. destruct u as [|x u]; [|discriminate H].
      exists v. exact H.
  - cbn [includes]. rewrite orb_true_iff, startsWith_spec, IH. split.
    + intros [[t Ht] | [u [v Huv]]].
      * exists [], t. exact Ht.
      * exists (d :: u), v. rewrite Huv. reflexivity.
    + intros [[|x u] [v H]].
      * left. exists v. exact H.
      * right. injection H as _ H. exists u, v. exact H.
Qed.

Lemma array_includes_spec (x : jsstring) (arr : list jsstring) :
  array_includes x arr = true <-> In x arr.
Proof.
  unfold array_includes. rewrite existsb_exists. split.
  - intros [y [Hy Hxy]]. apply eqb_eq in Hxy. subst y. exact Hy.
  - intros H. exists x. split; [exact H | apply eqb_refl].
Qed.

Lemma class_az09h_spec (c : code_unit) : class_az09h c = true <-> in_az09h c.
Proof.
  unfold class_az09h, class_az09, is_lower, is_digit, is_hyphen, hyphen,
    in_az09h.
  rewrite !orb_true_iff, !andb_true_iff, !N.leb_le, N.eqb_eq. tauto.
Qed.

Lemma test_az09h_plus_spec (s : jsstring) :
  test_az09h_plus s = true <-> s <> [] /\ forall c, In c s -> in_az09h c.
Proof.
  destruct s as [|d s].
  - simpl. split; [discriminate | intros [H _]; contradiction].
  - unfold test_az09h_plus. rewrite forallb_forall. split.
    + intros H. split; [discriminate|].
      intros c Hc. apply class_az09h_spec, H, Hc.
    + intros [_ H] c Hc. apply class_az09h_spec, H, Hc.
Qed.

Lemma is_hyphen_eq (c : code_unit) : is_hyphen c = true <-> c = hyphen.
Proof. apply N.eqb_eq. Qed.

(** ** The order of the format rules *)

(** The test of the source for a rule fails exactly on the strings that
    satisfy the rule. *)
Lemma violated_false_iff (r : Rule) (s : jsstring) :
  violated r s = false <-> satisfies r s.
Proof.
  destruct r; cbn [violated satisfies].
  - rewrite Nat.ltb_ge. reflexivity.
  - rewrite Nat.ltb_ge. reflexivity.
  - rewrite negb_false_iff. apply test_az09h_plus_spec.
  - rewrite orb_false_iff, <- !not_true_iff_false,
      startsWith_spec, endsWith_spec. split.
    + intros [H1 H2]. split; intros t ->.
      * apply H1. exists t. reflexivity.
      * apply H2. exists t. reflexivity.
    + intros [H1 H2]. split; intros [t ->].
      * exact (H1 t eq_refl).
      * exact (H2 t eq_refl).
  - rewrite <- not_true_iff_false, includes_spec. split.
    + intros H u v ->. apply H. exists u, v. reflexivity.
    + intros H [u [v ->]]. exact (H u v eq_refl).
  - rewrite <- not_true_iff_false, array_includes_spec. reflexivity.
Qed.

Lemma violated_true_iff (r : Rule) (s : jsstring) :
  violated r s = true <-> ~ satisfies r s.
Proof.
  rewrite <- violated_false_iff. destruct (violated r s); split; intros H;
    try reflexivity; try discriminate; try (exfalso; apply H; reflexivity).
Qed.

(** [validateFormat] answers for the first rule of the order whose test
    fires. *)
Lemma validateFormat_find (s : jsstring) :
  validateFormat s =
  match find (fun r => violated r s) rules_in_order with
  | Some r => reject (rule_message r)
  | None => accept
  end.
Proof.
  unfold validateFormat, rules_in_order, find, violated.
  repeat match goal with |- context [if ?b then _ else _] =>
    destruct b; [reflexivity|] end.
  reflexivity.
Qed.

Lemma find_first_violated (s : jsstring) (r : Rule) :
  violated r s = true ->
  (forall r', rank r' < rank r -> violated r' s = false) ->
  find (fun r => violated r s) rules_in_order = Some r.
Proof.
  intros Hr Hbefore.
  assert (H : forall q, rank q < rank r -> violated q s = false) by exact Hbefore.
  unfold rules_in_order, find.
  destruct r; simpl in H;
    repeat match goal with
    | |- context [violated ?q s] =>
        first [ rewrite Hr | rewrite (H q) by (simpl; lia) ]
    end; reflexivity.
Qed.

Lemma validateFormat_valid_iff (s : jsstring) :
  Format.isValid (validateFormat s) = true <-> forall r, satisfies r s.
Proof.
  rewrite validateFormat_find. split.
  - intros H r. apply violated_false_iff.
    destruct (find (fun r => violated r s) rules_in_order) as [q|] eqn:E;
      [discriminate H|].
    apply (find_none _ _ E). destruct r; simpl; tauto.
  - intros H.
    destruct (find (fun r => violated r s) rules_in_order) as [q|] eqn:E;
      [|reflexivity].
    apply find_some in E. destruct E as [_ E].
    apply violated_true_iff in E. exfalso. apply E, H.
Qed.

Lemma validateFormat_accept (s : jsstring) :
  Format.isValid (validateFormat s) = true -> validateFormat s = accept.
Proof.
  rewrite validateFormat_find.
  destruct (find (fun r => violated r s) rules_in_order);
    [discriminate | reflexivity].
Qed.

(** C2. [validateFormat] tries its six rules in the fixed order: length
    below 3, length above 30, the character set, a hyphen at an edge, two
    hyphens in a row, the reserved names.  A string that violates a rule
    and satisfies all the rules before it is rejected with the message of
    that rule, so the first violated rule decides.  Every string of length
    0 to 2 gets the too-short message whatever it contains, and "ab--cd"
    gets the consecutive-hyphen message. *)
Theorem validateFormat_first_violated_rule_wins :
  (forall s,
     validateFormat s =
     match find (fun r => violated r s) rules_in_order with
     | Some r => reject (rule_message r)
     | None => accept
     end) /\
  (forall s r,
     ~ satisfies r s ->
     (forall r', rank r' < rank r -> satisfies r' s) ->
     validateFormat s = reject (rule_message r)) /\
  (forall s, length s <= 2 -> validateFormat s = reject msg_too_short) /\
  validateFormat (lit "ab--cd") = reject msg_consecutive.
Proof.
  split; [exact validateFormat_find|].
  split; [|split].
  - intros s r Hr Hbefore.
    rewrite validateFormat_find, (@find_first_violated s r); [reflexivity | |].
    + apply violated_true_iff, Hr.
    + intros r' Hlt. apply violated_false_iff, Hbefore, Hlt.
  - intros s Hs. unfold validateFormat.
    destruct (length s <? 3) eqn:E; [reflexivity|].
    apply Nat.ltb_ge in E. lia.
  - vm_compute. reflexivity.
Qed.

(** "-A--" is long enough and short enough, and breaks the character set,
    the edge and the consecutive-hyphen rules at once: the character set
    message wins. *)
Lemma validateFormat_first_violated_rule_wins_witness :
  ~ satisfies Charset (lit "-A--") /\
  ~ satisfies EdgeHyphen (lit "-A--") /\
  ~ satisfies ConsecutiveHyphens (lit "-A--") /\
  (forall r', rank r' < rank Charset -> satisfies r' (lit "-A--")) /\
  validateFormat (lit "-A--") = reject msg_charset.
Proof.
  assert (H3 : ~ satisfies Charset (lit "-A--"))
    by (apply violated_true_iff; reflexivity).
  assert (Hb : forall r', rank r' < rank Charset -> satisfies r' (lit "-A--")).
  { intros r' H. apply violated_false_iff.
    destruct r'; simpl in H; try lia; reflexivity. }
  split; [exact H3|].
  split; [apply violated_true_iff; reflexivity|].
  split; [apply violated_true_iff; reflexivity|].
  split; [exact Hb|].
  exact (proj1 (proj2 validateFormat_first_violated_rule_wins)
           (lit "-A--") Charset H3 Hb).
Defined.

(** ** Normalization *)

Lemma collapse_cons (c : code_unit) (s : jsstring) :
  Spec.collapse_hyphens (c :: s) =
  if is_hyphen c && head_is_hyphen s then Spec.collapse_hyphens s
  else c :: Spec.collapse_hyphens s.
Proof.
  destruct s as [|d s]; [|reflexivity].
  simpl. rewrite andb_false_r. reflexivity.
Qed.

Lemma collapse_head (s : jsstring) :
  head_is_hyphen (Spec.collapse_hyphens s) = head_is_hyphen s.
Proof.
  induction s as [|c s IH]; [reflexivity|].
  rewrite collapse_cons.
  destruct (is_hyphen c) eqn:Hc, (head_is_hyphen s) eqn:Hs; simpl;
    rewrite ?Hc; congruence.
Qed.

Lemma collapse_no_adjacent (s : jsstring) :
  no_adjacent_hyphens (Spec.collapse_hyphens s) = true.
Proof.
  induction s as [|c s IH]; [reflexivity|].
  rewrite collapse_cons.
  destruct (is_hyphen c && head_is_hyphen s) eqn:E; [exact IH|].
  cbn [no_adjacent_hyphens]. rewrite collapse_head, E, IH. reflexivity.
Qed.

(** The scan of [/-+/g] and the collapsing of the specification agree; in
    the middle of a run the scan is one hyphen behind. *)
Lemma replace_hyphen_runs_from_collapse (s : jsstring) :
  replace_hyphen_runs_from false s = Spec.collapse_hyphens s /\
  replace_hyphen_runs_from true s = drop_head_hyphen (Spec.collapse_hyphens s).
Proof.
  induction s as [|c s [IHf IHt]]; [split; reflexivity|].
  cbn [replace_hyphen_runs_from]. rewrite collapse_cons, IHf, IHt.
  pose proof (collapse_head s) as Hh.
  destruct (is_hyphen c) eqn:Hc; cbn [andb].
  - apply is_hyphen_eq in Hc. subst c.
    destruct (head_is_hyphen s) eqn:Hs.
    + destruct (Spec.collapse_hyphens s) as [|d t]; [discriminate Hh|].
      cbn in Hh. cbn [drop_head_hyphen]. rewrite Hh.
      apply is_hyphen_eq in Hh. subst d. split; reflexivity.
    + assert (Hd : drop_head_hyphen (Spec.collapse_hyphens s)
                   = Spec.collapse_hyphens s).
      { destruct (Spec.collapse_hyphens s) as [|d t]; [reflexivity|].
        cbn in Hh. cbn. rewrite Hh. reflexivity. }
      rewrite Hd. split; reflexivity.
  - cbn [drop_head_hyphen]. rewrite Hc. split; reflexivity.
Qed.

Lemma replace_hyphen_runs_collapse (s : jsstring) :
  replace_hyphen_runs s = Spec.collapse_hyphens s.
Proof. apply replace_hyphen_runs_from_collapse. Qed.

Lemma replace_edge_hyphens_from_snoc (s : jsstring) (c : code_unit) :
  replace_edge_hyphens_from false (s ++ [c]) =
  if is_hyphen c then s else s ++ [c].
Proof.
  induction s as [|d s IH].
  - simpl. destruct (is_hyphen c); reflexivity.
  - change ((d :: s) ++ [c]) with (d :: (s ++ [c])).
    cbn [replace_edge_hyphens_from].
    destruct (s ++ [c]) as [|x t] eqn:E.
    + destruct s; discriminate E.
    + rewrite orb_false_r, andb_false_r, IH.
      destruct (is_hyphen c); reflexivity.
Qed.

Lemma strip_trailing_snoc (s : jsstring) (c : code_unit) :
  Spec.strip_trailing_hyphens (s ++ [c]) =
  if is_hyphen c then Spec.strip_trailing_hyphens s else s ++ [c].
Proof.
  unfold Spec.strip_trailing_hyphens. rewrite rev_app_distr. simpl.
  destruct (is_hyphen c); [reflexivity|].
  simpl. rewrite rev_involutive. reflexivity.
Qed.

Lemma no_adjacent_last_two (u : jsstring) (d c : code_unit) :
  no_adjacent_hyphens (u ++ [d; c]) = true ->
  is_hyphen d && is_hyphen c = false.
Proof.
  induction u as [|x u IH]; simpl.
  - rewrite !andb_true_iff, negb_true_iff. tauto.
  - rewrite andb_true_iff. intros [_ H]. exact (IH H).
Qed.

(** On a string without adjacent hyphens, removing a hyphen at the end is
    removing them all. *)
Lemma replace_edge_hyphens_from_strip (s : jsstring) :
  no_adjacent_hyphens s = true ->
  replace_edge_hyphens_from false s = Spec.strip_trailing_hyphens s.
Proof.
  destruct (rev s) as [|c r] eqn:E.
  - apply (f_equal (@rev _)) in E. rewrite rev_involutive in E. subst s.
    reflexivity.
  - apply (f_equal (@rev _)) in E. rewrite rev_involutive in E.
    simpl in E. subst s. intros Hna.
    rewrite replace_edge_hyphens_from_snoc, strip_trailing_snoc.
    destruct (is_hyphen c) eqn:Hc; [|reflexivity].
    destruct r as [|d r]; [reflexivity|].
    simpl rev in *. rewrite strip_trailing_snoc.
    rewrite <- app_assoc in Hna. apply no_adjacent_last_two in Hna.
    rewrite Hc, andb_true_r in Hna. rewrite Hna. reflexivity.
Qed.

Lemma strip_leading_one (s : jsstring) :
  no_adjacent_hyphens s = true ->
  Spec.strip_leading_hyphens s = drop_head_hyphen s /\
  no_adjacent_hyphens (drop_head_hyphen s) = true.
Proof.
  destruct s as [|c s]; [split; reflexivity|].
  cbn [no_adjacent_hyphens Spec.strip_leading_hyphens drop_head_hyphen].
  rewrite andb_true_iff, negb_true_iff. intros [H1 H2].
  destruct (is_hyphen c) eqn:Hc.
  - split; [|exact H2]. cbn in H1.
    destruct s as [|d s]; [reflexivity|]. cbn in H1. cbn. rewrite H1.
    reflexivity.
  - split; [reflexivity|]. cbn [no_adjacent_hyphens].
    rewrite Hc, H2. reflexivity.
Qed.

Lemma replace_edge_hyphens_drop_head (s : jsstring) :
  replace_edge_hyphens s = replace_edge_hyphens_from false (drop_head_hyphen s).
Proof.
  destruct s as [|c s]; [reflexivity|].
  unfold replace_edge_hyphens. cbn [replace_edge_hyphens_from drop_head_hyphen].
  rewrite orb_true_l, andb_true_r.
  destruct (is_hyphen c) eqn:Hc; [reflexivity|].
  cbn [replace_edge_hyphens_from]. rewrite Hc. reflexivity.
Qed.

Lemma replace_edge_hyphens_strip (s : jsstring) :
  no_adjacent_hyphens s = true ->
  replace_edge_hyphens s = Spec.strip_hyphens s.
Proof.
  intros H. destruct (strip_leading_one s H) as [Hl Hn].
  unfold Spec.strip_hyphens.
  rewrite replace_edge_hyphens_drop_head, Hl.
  apply replace_edge_hyphens_from_strip, Hn.
Qed.

Lemma substring_0 (s : jsstring) (n : nat) : substring s 0 n = firstn n s.
Proof. unfold substring. rewrite Nat.min_0_l, Nat.max_0_l. reflexivity. Qed.

Lemma generateSubdomain_normalize
  (toLowerCase : jsstring -> jsstring) (s : jsstring) :
  generateSubdomain toLowerCase s = Spec.normalize toLowerCase s.
Proof.
  unfold generateSubdomain, Spec.normalize, Spec.truncate.
  rewrite substring_0, replace_hyphen_runs_collapse.
  rewrite replace_edge_hyphens_strip by apply collapse_no_adjacent.
  reflexivity.
Qed.

(** *** The alphabet of the result *)

Lemma forallb_replace_non_az09 (s : jsstring) :
  forallb class_az09h (replace_non_az09 s) = true.
Proof.
  induction s as [|c s IH]; [reflexivity|].
  simpl. rewrite IH, andb_true_r. unfold class_az09h.
  destruct (class_az09 c) eqn:E; [rewrite E|]; reflexivity.
Qed.

Lemma forallb_replace_hyphen_runs_from (b : bool) (s : jsstring) :
  forallb class_az09h s = true ->
  forallb class_az09h (replace_hyphen_runs_from b s) = true.
Proof.
  revert b; induction s as [|c s IH]; intros b; [reflexivity|].
  cbn [forallb replace_hyphen_runs_from]. rewrite andb_true_iff.
  intros [Hc Hs].
  destruct (is_hyphen c); [destruct b|]; cbn [forallb].
  - auto.
  - rewrite (IH true Hs). reflexivity.
  - rewrite Hc, (IH false Hs). reflexivity.
Qed.

Lemma forallb_replace_edge_hyphens_from (b : bool) (s : jsstring) :
  forallb class_az09h s = true ->
  forallb class_az09h (replace_edge_hyphens_from b s) = true.
Proof.
  revert b; induction s as [|c s IH]; intros b; [reflexivity|].
  cbn [forallb replace_edge_hyphens_from]. rewrite andb_true_iff.
  intros [Hc Hs].
  destruct (is_hyphen c && _).
  - apply IH, Hs.
  - cbn [forallb]. rewrite Hc. apply IH, Hs.
Qed.

Lemma forallb_firstn (n : nat) (s : jsstring) :
  forallb class_az09h s = true ->
  forallb class_az09h (firstn n s) = true.
Proof.
  revert n; induction s as [|c s IH]; intros [|n]; try reflexivity.
  simpl. rewrite !andb_true_iff. intros [Hc Hs]. auto.
Qed.

(** ** Host names *)

Lemma split_from_length (sep : code_unit) (cur s : jsstring) :
  length (split_from sep cur s) = S (count_occ N.eq_dec s sep).
Proof.
  revert cur; induction s as [|c s IH]; intros cur; [reflexivity|].
  cbn [split_from count_occ].
  destruct (N.eqb_spec c sep) as [->|Hne].
  - destruct (N.eq_dec sep sep) as [_|F]; [|contradiction].
    cbn [length]. rewrite IH. reflexivity.
  - destruct (N.eq_dec c sep) as [F|_]; [contradiction|]. apply IH.
Qed.

Lemma split_from_first (cur s : jsstring) :
  nth_error (split_from dot cur s) 0 = Some (rev cur ++ Spec.leftmost_label s).
Proof.
  revert cur; induction s as [|c s IH]; intros cur.
  - simpl. rewrite app_nil_r. reflexivity.
  - cbn [split_from Spec.leftmost_label].
    destruct (c =? dot)%N.
    + simpl. rewrite app_nil_r. reflexivity.
    + rewrite IH. simpl. rewrite <- app_assoc. reflexivity.
Qed.

(** ** What the specification says of the policy engine *)

(** C6. Whatever the input, [generateSubdomain] (the specification's
    normalize) is the composition: lowercase, replace every character
    outside [a-z0-9] with a hyphen, collapse consecutive hyphens into one,
    strip the leading and trailing hyphens, truncate to 30 characters.  And
    "Acme Corp!!" becomes "acme-corp". *)
Theorem generateSubdomain_is_normalize :
  (forall (toLowerCase : jsstring -> jsstring) (s : jsstring),
     generateSubdomain toLowerCase s =
     Spec.truncate 30
       (Spec.strip_hyphens
          (Spec.collapse_hyphens
             (Spec.hyphenate_outside_az09 (toLowerCase s))))) /\
  (forall toLowerCase : jsstring -> jsstring,
     lowers_ascii toLowerCase ->
     generateSubdomain toLowerCase (lit "Acme Corp!!") = lit "acme-corp").
Proof.
  split.
  - intros toLowerCase s. apply generateSubdomain_normalize.
  - intros toLowerCase Hlow. unfold generateSubdomain.
    rewrite (Hlow (lit "Acme Corp!!")) by reflexivity.
    vm_compute. reflexivity.
Qed.

Lemma generateSubdomain_is_normalize_witness :
  lowers_ascii toLowerCase_ascii_only /\
  generateSubdomain toLowerCase_ascii_only (lit "Acme Corp!!")
  = lit "acme-corp".
Proof.
  assert (H : lowers_ascii toLowerCase_ascii_only)
    by (intros s _; reflexivity).
  split; [exact H|].
  exact (proj2 generateSubdomain_is_normalize toLowerCase_ascii_only H).
Defined.

(** C7. Whatever the input, the result of [generateSubdomain] has at most
    30 code units and each of them is in [a-z0-9-]. *)
Theorem generateSubdomain_length_and_charset
  (toLowerCase : jsstring -> jsstring) (s : jsstring) :
  length (generateSubdomain toLowerCase s) <= 30 /\
  (forall c, In c (generateSubdomain toLowerCase s) -> in_az09h c).
Proof.
  unfold generateSubdomain. rewrite substring_0. split.
  - apply firstn_le_length.
  - intros c Hc. apply class_az09h_spec. revert c Hc.
    apply forallb_forall, forallb_firstn.
    apply forallb_replace_edge_hyphens_from, forallb_replace_hyphen_runs_from.
    apply forallb_replace_non_az09.
Qed.

(** C9. Some input makes [generateSubdomain] end with a hyphen: the cut at
    30 comes after the hyphens at the edges are removed, so 29 times "a"
    followed by "!b" gives 30 code units, the last one a hyphen, and
    [validateFormat] rejects that result by the rule on hyphens at the
    edges. *)
Theorem generateSubdomain_may_end_with_hyphen
  (toLowerCase : jsstring -> jsstring) :
  lowers_ascii toLowerCase ->
  exists input,
    input = repeat 97%N 29 ++ lit "!b" /\
    generateSubdomain toLowerCase input = repeat 97%N 29 ++ [hyphen] /\
    length (generateSubdomain toLowerCase input) = 30 /\
    endsWith [hyphen] (generateSubdomain toLowerCase input) = true /\
    validateFormat (generateSubdomain toLowerCase input)
    = reject msg_edge_hyphen.
Proof.
  intros Hlow. exists (repeat 97%N 29 ++ lit "!b").
  split; [reflexivity|].
  assert (E : generateSubdomain toLowerCase (repeat 97%N 29 ++ lit "!b")
              = repeat 97%N 29 ++ [hyphen]).
  { unfold generateSubdomain.
    rewrite (Hlow (repeat 97%N 29 ++ lit "!b")) by reflexivity.
    vm_compute. reflexivity. }
  rewrite E. repeat split; vm_compute; reflexivity.
Qed.

Lemma generateSubdomain_may_end_with_hyphen_witness :
  lowers_ascii toLowerCase_ascii_only /\
  exists input,
    input = repeat 97%N 29 ++ lit "!b" /\
    generateSubdomain toLowerCase_ascii_only input
    = repeat 97%N 29 ++ [hyphen] /\
    length (generateSubdomain toLowerCase_ascii_only input) = 30 /\
    endsWith [hyphen] (generateSubdomain toLowerCase_ascii_only input) = true /\
    validateFormat (generateSubdomain toLowerCase_ascii_only input)
    = reject msg_edge_hyphen.
Proof.
  assert (H : lowers_ascii toLowerCase_ascii_only)
    by (intros s _; reflexivity).
  split; [exact H|].
  exact (generateSubdomain_may_end_with_hyphen H).
Defined.

(** C8. For every host name: when it is neither "localhost" nor "127.0.0.1"
    and has at least 3 dot-separated parts, the answer is its leftmost
    label; in every other case there is no answer.  "tenant.uproom.com"
    gives "tenant", "localhost" and "uproom.com" give none. *)
Theorem extractSubdomainFromHost_leftmost_label :
  (forall h,
     ~ Spec.is_loopback h -> 3 <= Spec.parts_count h ->
     extractSubdomainFromHost h = Some (Spec.leftmost_label h)) /\
  (forall h,
     Spec.is_loopback h \/ Spec.parts_count h < 3 ->
     extractSubdomainFromHost h = None) /\
  extractSubdomainFromHost (lit "tenant.uproom.com") = Some (lit "tenant") /\
  extractSubdomainFromHost (lit "localhost") = None /\
  extractSubdomainFromHost (lit "uproom.com") = None.
Proof.
  split; [|split].
  - intros h Hnl Hparts. unfold extractSubdomainFromHost, split.
    rewrite split_from_length, split_from_first.
    destruct (eqb h (lit "localhost")) eqn:E1.
    { apply eqb_eq in E1. exfalso. apply Hnl. left. exact E1. }
    destruct (eqb h (lit "127.0.0.1")) eqn:E2.
    { apply eqb_eq in E2. exfalso. apply Hnl. right. exact E2. }
    cbn [orb]. unfold Spec.parts_count in Hparts.
    apply Nat.leb_le in Hparts. rewrite Hparts. reflexivity.
  - intros h [[-> | ->] | Hparts]; [reflexivity | reflexivity |].
    unfold extractSubdomainFromHost, split.
    rewrite split_from_length.
    destruct (eqb h (lit "localhost") || eqb h (lit "127.0.0.1"));
      [reflexivity|].
    unfold Spec.parts_count in Hparts.
    destruct (Nat.leb_spec 3 (S (count_occ N.eq_dec h dot)));
      [lia | reflexivity].
  - repeat split; vm_compute; reflexivity.
Qed.

(** "a.b.c" has three parts and is no loopback name: the answer is "a". *)
Lemma extractSubdomainFromHost_leftmost_label_witness :
  ~ Spec.is_loopback (lit "a.b.c") /\
  3 <= Spec.parts_count (lit "a.b.c") /\
  extractSubdomainFromHost (lit "a.b.c") = Some (lit "a").
Proof.
  assert (Hn : ~ Spec.is_loopback (lit "a.b.c"))
    by (intros [H | H]; discriminate H).
  assert (Hp : 3 <= Spec.parts_count (lit "a.b.c"))
    by (vm_compute; lia).
  split; [exact Hn|]. split; [exact Hp|].
  exact (proj1 extractSubdomainFromHost_leftmost_label (lit "a.b.c") Hn Hp).
Defined.

(** ** The resolver *)

Lemma code_is_PGRST116_spec (e : PostgrestError) :
  code_is_PGRST116 e = true <-> code e = Some PGRST116.
Proof.
  unfold code_is_PGRST116. destruct (code e) as [c|].
  - rewrite eqb_eq. split; [intros ->; reflexivity | intros [= ->]; reflexivity].
  - split; discriminate.
Qed.

Section ResolverFacts.

Variable World : Type.
Variable single : jsstring -> World -> QueryResult * World.

(** One call of [checkAvailability] makes one round trip for its key,
    completes normally whatever the store did, and answers [true] exactly
    on the no-rows report. *)
Lemma checkAvailability_run (s : jsstring) (env : Env World) :
  exists b env',
    checkAvailability single s env = (Normal b, env') /\
    world env' = snd (single s (world env)) /\
    lookups env' = lookups env ++ [s] /\
    (b = true <-> reports_no_rows (fst (single s (world env)))).
Proof.
  unfold checkAvailability, try_catch, bind, await_single, reports_no_rows.
  destruct (single s (world env)) as [q w]. cbn [fst snd].
  destruct q as [data [e|] | x].
  - destruct (code_is_PGRST116 e) eqn:E.
    + eexists; eexists. repeat split; try reflexivity.
      exists data, e. split; [reflexivity | apply code_is_PGRST116_spec, E].
    + eexists; eexists. repeat split; try reflexivity; [discriminate|].
      intros [d [e' [[= _ <-] He]]].
      apply code_is_PGRST116_spec in He. congruence.
  - eexists; eexists. repeat split; try reflexivity; [discriminate|].
    intros [d [e' [[=] _]]].
  - eexists; eexists. repeat split; try reflexivity; [discriminate|].
    intros [d [e' [[=] _]]].
Qed.

Lemma failed_not_no_rows (q : QueryResult) :
  lookup_failed q -> ~ reports_no_rows q.
Proof.
  intros [[x ->] | [d [e [-> Hne]]]] [d' [e' [Heq He]]].
  - discriminate Heq.
  - injection Heq as _ <-. contradiction.
Qed.

Lemma record_not_no_rows (q : QueryResult) :
  reports_record q -> ~ reports_no_rows q.
Proof.
  intros [row ->] [d' [e' [Heq _]]]. discriminate Heq.
Qed.

(** A string that fails the format is answered without touching
    anything. *)
Lemma validateSubdomain_invalid (s : jsstring) (env : Env World) :
  Format.isValid (validateFormat s) = false ->
  validateSubdomain single s env =
  (Normal {| isValid := false;
             isAvailable := false;
             message := Format.message (validateFormat s) |}, env).
Proof.
  intros H. unfold validateSubdomain. rewrite H. reflexivity.
Qed.

(** A string that passes the format costs one [checkAvailability]. *)
Lemma validateSubdomain_valid (s : jsstring) (env : Env World) :
  Format.isValid (validateFormat s) = true ->
  exists b env',
    checkAvailability single s env = (Normal b, env') /\
    validateSubdomain single s env =
    (Normal {| isValid := true;
               isAvailable := b;
               message := if b then msg_available else msg_taken |}, env') /\
    world env' = snd (single s (world env)) /\
    lookups env' = lookups env ++ [s] /\
    (b = true <-> reports_no_rows (fst (single s (world env)))).
Proof.
  intros H. destruct (checkAvailability_run s env) as (b & env' & Hc & Hw & Hl & Hb).
  exists b, env'. repeat split; try assumption; try apply Hb.
  unfold validateSubdomain. rewrite H. cbn [negb]. unfold bind.
  rewrite Hc. reflexivity.
Qed.

End ResolverFacts.

(** C3. Whatever the input, when the lookup inside [checkAvailability]
    fails (the promise is rejected, or the response carries an error other
    than the no-rows one), [checkAvailability] completes normally with
    [false]: the fault never reaches the caller as an exception.  It
    answers [true] exactly when the lookup reports that no record
    matches. *)
Theorem checkAvailability_fail_closed
  (World : Type) (single : jsstring -> World -> QueryResult * World)
  (s : jsstring) (env : Env World) :
  exists b env',
    checkAvailability single s env = (Normal b, env') /\
    (lookup_failed (fst (single s (world env))) -> b = false) /\
    (b = true <-> reports_no_rows (fst (single s (world env)))).
Proof.
  destruct (checkAvailability_run single s env) as (b & env' & Hc & _ & _ & Hb).
  exists b, env'. split; [exact Hc|]. split; [|exact Hb].
  intros Hf. apply failed_not_no_rows in Hf.
  destruct b; [|reflexivity]. exfalso. apply Hf, Hb. reflexivity.
Qed.

(** With the store out of reach the answer for "acme" is [false], given as
    a value. *)
Lemma checkAvailability_fail_closed_witness :
  lookup_failed (fst (unreachable_single (lit "acme") tt)) /\
  exists env',
    checkAvailability unreachable_single (lit "acme") (fresh tt)
    = (Normal false, env').
Proof.
  assert (Hf : lookup_failed (fst (unreachable_single (lit "acme") tt)))
    by (left; eexists; reflexivity).
  split; [exact Hf|].
  destruct (checkAvailability_fail_closed unreachable_single (lit "acme") (fresh tt))
    as (b & env' & Hc & Hfalse & _).
  exists env'. rewrite Hc, (Hfalse Hf). reflexivity.
Defined.

(** C5. An input that fails [validateFormat] gets
    [{isValid: false, isAvailable: false, message: the format message}]
    and nothing is looked up (the store, the journal of lookups and the
    console are as before).  An input that passes costs exactly one
    [checkAvailability], hence one lookup, of this very input, and gets
    [{isValid: true, isAvailable: that answer}] with the message
    "Subdomain is available" or "Subdomain is already taken". *)
Theorem validateSubdomain_short_circuits
  (World : Type) (single : jsstring -> World -> QueryResult * World)
  (s : jsstring) (env : Env World) :
  (Format.isValid (validateFormat s) = false ->
   validateSubdomain single s env =
   (Normal {| isValid := false;
              isAvailable := false;
              message := Format.message (validateFormat s) |}, env)) /\
  (Format.isValid (validateFormat s) = true ->
   exists b env',
     checkAvailability single s env = (Normal b, env') /\
     validateSubdomain single s env =
     (Normal {| isValid := true;
                isAvailable := b;
                message := if b then msg_available else msg_taken |}, env') /\
     lookups env' = lookups env ++ [s]).
Proof.
  split.
  - apply validateSubdomain_invalid.
  - intros H.
    destruct (validateSubdomain_valid single s env H)
      as (b & env' & Hc & Hv & _ & Hl & _).
    exists b, env'. auto.
Qed.

(** "Acme" has a capital: rejected at once, the table is not read.
    "acme" is well formed: one lookup, and it is taken. *)
Lemma validateSubdomain_short_circuits_witness :
  (Format.isValid (validateFormat (lit "Acme")) = false /\
   validateSubdomain (table_single acme_table) (lit "Acme") (fresh tt) =
   (Normal {| isValid := false; isAvailable := false;
              message := msg_charset |}, fresh tt)) /\
  (Format.isValid (validateFormat (lit "acme")) = true /\
   exists env',
     validateSubdomain (table_single acme_table) (lit "acme") (fresh tt) =
     (Normal {| isValid := true; isAvailable := false;
                message := msg_taken |}, env') /\
     lookups env' = [lit "acme"]).
Proof.
  split.
  - split; [reflexivity|].
    exact (proj1 (validateSubdomain_short_circuits (table_single acme_table) (lit "Acme")
                    (fresh tt)) eq_refl).
  - split; [reflexivity|].
    destruct (proj2 (validateSubdomain_short_circuits (table_single acme_table) (lit "acme")
                       (fresh tt)) eq_refl)
      as (b & env' & Hc & Hv & Hl).
    exists env'. split; [|exact Hl].
    rewrite Hv. vm_compute in Hc. injection Hc as <- _. reflexivity.
Defined.

(** C1. Whatever the input, when [validateSubdomain] answers with
    [isValid = true] and [isAvailable = true], the input satisfies the six
    format rules (3 to 30 code units, all in [a-z0-9-], no hyphen first or
    last, no two hyphens in a row, not a reserved name), and the lookup made
    for it during the call did not fail but reported that no record
    matches. *)
Theorem validateSubdomain_valid_and_available
  (World : Type) (single : jsstring -> World -> QueryResult * World)
  (s : jsstring) (env env' : Env World) (r : SubdomainValidation) :
  validateSubdomain single s env = (Normal r, env') ->
  isValid r = true ->
  isAvailable r = true ->
  (forall rule, satisfies rule s) /\
  (3 <= length s <= 30 /\ ~ In s RESERVED_SUBDOMAINS) /\
  lookups env' = lookups env ++ [s] /\
  reports_no_rows (fst (single s (world env))) /\
  ~ lookup_failed (fst (single s (world env))).
Proof.
  intros Hrun Hvalid Havail.
  destruct (Format.isValid (validateFormat s)) eqn:Hf.
  - destruct (validateSubdomain_valid single s env Hf)
      as (b & env1 & _ & Hv & _ & Hl & Hb).
    rewrite Hv in Hrun. injection Hrun as <- <-. cbn in Havail.
    assert (Hrules : forall rule, satisfies rule s)
      by (apply validateFormat_valid_iff, Hf).
    split; [exact Hrules|].
    split.
    { split; [split|].
      - exact (Hrules MinLength).
      - exact (Hrules MaxLength).
      - exact (Hrules NotReserved). }
    split; [exact Hl|].
    assert (Hn : reports_no_rows (fst (single s (world env))))
      by (apply Hb, Havail).
    split; [exact Hn|].
    intros Hfail. exact (failed_not_no_rows Hfail Hn).
  - rewrite (validateSubdomain_invalid single s env Hf) in Hrun.
    injection Hrun as <- _. discriminate Hvalid.
Qed.

(** "acme-2" against the table where "acme", "acme-1" and "acme-3" are
    taken. *)
Lemma validateSubdomain_valid_and_available_witness :
  (forall rule, satisfies rule (lit "acme-2")) /\
  (3 <= length (lit "acme-2") <= 30 /\
   ~ In (lit "acme-2") RESERVED_SUBDOMAINS) /\
  lookups (snd (validateSubdomain (table_single acme_table) (lit "acme-2") (fresh tt)))
  = [] ++ [lit "acme-2"] /\
  reports_no_rows (fst (table_single acme_table (lit "acme-2") tt)) /\
  ~ lookup_failed (fst (table_single acme_table (lit "acme-2") tt)).
Proof.
  apply (@validateSubdomain_valid_and_available _ (table_single acme_table)
           (lit "acme-2")
           (fresh tt)
           (snd (validateSubdomain (table_single acme_table) (lit "acme-2") (fresh tt)))
           (Build_SubdomainValidation true true msg_available)).
  - vm_compute. reflexivity.
  - reflexivity.
  - reflexivity.
Defined.

(** ** The search for alternatives *)

Lemma of_number_nonempty (i : Z) : 1 <= length (of_number i).
Proof.
  unfold of_number, lit. rewrite length_map.
  destruct i as [|p|p]; cbn [Z.to_int NilEmpty.string_of_int].
  - simpl. lia.
  - pose proof (DecimalPos.Unsigned.to_uint_nonnil p) as Hnn.
    destruct (Pos.to_uint p); [contradiction | | | | | | | | | |];
      simpl; lia.
  - simpl. lia.
Qed.

Lemma alternative_of_length (base : jsstring) (i : Z) :
  length (alternative_of base i) = length base + 1 + length (of_number i).
Proof.
  unfold alternative_of. rewrite !length_app. simpl. lia.
Qed.

Lemma validateFormat_too_long (s : jsstring) :
  30 < length s -> validateFormat s = reject msg_too_long.
Proof.
  intros H. unfold validateFormat.
  destruct (Nat.ltb_spec (length s) 3); [lia|].
  destruct (Nat.ltb_spec 30 (length s)); [reflexivity | lia].
Qed.

Lemma candidates_length (base : jsstring) (count : Z) :
  length (candidates base count) = Z.to_nat count.
Proof. unfold candidates. rewrite length_map, length_seq. reflexivity. Qed.

Lemma no_rows_match (q : QueryResult) :
  match q with
  | Response _ (Some e) => code_is_PGRST116 e
  | _ => false
  end = true <-> reports_no_rows q.
Proof.
  unfold reports_no_rows. destruct q as [d [e|] | x].
  - rewrite code_is_PGRST116_spec. split.
    + intros H. exists d, e. auto.
    + intros [d' [e' [[= _ <-] H]]]. exact H.
  - split; [discriminate | intros [d' [e' [[=] _]]]].
  - split; [discriminate | intros [d' [e' [[=] _]]]].
Qed.

(** A candidate passes against a steady store exactly when it satisfies
    every format rule and the store reports no row for it. *)
Lemma passes_iff (answer : jsstring -> QueryResult) (c : jsstring) :
  passes answer c = true <->
  (forall r, satisfies r c) /\ reports_no_rows (answer c).
Proof.
  unfold passes.
  rewrite andb_true_iff, validateFormat_valid_iff, no_rows_match.
  reflexivity.
Qed.

Section SearchFacts.

Variable World : Type.
Variable single : jsstring -> World -> QueryResult * World.

(** [validateSubdomain] always completes normally, with at most one lookup;
    its verdict is positive exactly when the format is valid and the lookup
    of that moment reports no row. *)
Lemma validateSubdomain_run (s : jsstring) (env : Env World) :
  exists v env',
    validateSubdomain single s env = (Normal v, env') /\
    length (lookups env') <= S (length (lookups env)) /\
    (isValid v && isAvailable v = true <->
     Format.isValid (validateFormat s) = true /\
     reports_no_rows (fst (single s (world env)))).
Proof.
  destruct (Format.isValid (validateFormat s)) eqn:Hf.
  - destruct (validateSubdomain_valid single s env Hf)
      as (b & env' & _ & Hv & _ & Hl & Hb).
    eexists; exists env'. split; [exact Hv|]. split.
    + rewrite Hl, length_app. simpl. lia.
    + cbn [isValid isAvailable andb]. rewrite Hb. tauto.
  - eexists; exists env. split; [apply validateSubdomain_invalid, Hf|].
    split; [lia|]. cbn [isValid andb]. split; [discriminate|].
    intros [H _]. discriminate H.
Qed.

(** The loop with its accumulator is the sequential filter of the
    candidates still to come, put after what was accumulated. *)
Lemma alternatives_loop_keep_passing (base : jsstring) (n j : nat)
  (acc : list jsstring) (env : Env World) :
  alternatives_loop single base n (Z.of_nat j) acc env =
  match
    keep_passing single
      (map (fun k => alternative_of base (Z.of_nat k)) (seq j n)) env
  with
  | (Normal kept, env') => (Normal (acc ++ kept), env')
  | (Throw e, env') => (Throw e, env')
  end.
Proof.
  revert j acc env; induction n as [|n IH]; intros j acc env.
  - simpl. unfold ret. rewrite app_nil_r. reflexivity.
  - cbn [alternatives_loop seq map keep_passing]. unfold bind, ret.
    destruct (validateSubdomain single (alternative_of base (Z.of_nat j)) env)
      as [[v|e] env1]; [|reflexivity].
    replace (Z.of_nat j + 1)%Z with (Z.of_nat (S j)) by lia.
    rewrite IH.
    destruct (keep_passing single _ env1) as [[kept|e] env2]; [|reflexivity].
    destruct (isValid v && isAvailable v); [|reflexivity].
    rewrite <- app_assoc. reflexivity.
Qed.

Lemma generateAlternatives_keep_passing (base : jsstring) (count : Z)
  (env : Env World) :
  generateAlternatives single base count env =
  keep_passing single (candidates base count) env.
Proof.
  unfold generateAlternatives, candidates.
  change 1%Z with (Z.of_nat 1). rewrite alternatives_loop_keep_passing.
  destruct (keep_passing single _ env) as [[kept|e] env']; reflexivity.
Qed.

(** The sequential filter completes normally, makes at most one lookup per
    candidate, and keeps only candidates of valid format for which some
    lookup reported no row. *)
Lemma keep_passing_run (cands : list jsstring) (env : Env World) :
  exists kept env',
    keep_passing single cands env = (Normal kept, env') /\
    length (lookups env') <= length (lookups env) + length cands /\
    (forall c, In c kept ->
       In c cands /\ Format.isValid (validateFormat c) = true /\
       exists w, reports_no_rows (fst (single c w))).
Proof.
  revert env; induction cands as [|c cs IH]; intros env.
  - exists [], env. split; [reflexivity|]. split; [simpl; lia|].
    intros c [].
  - destruct (validateSubdomain_run c env) as (v & env1 & Hv & Hl1 & Hp).
    destruct (IH env1) as (kept & env2 & Hk & Hl2 & Hin).
    eexists; exists env2. split.
    + cbn [keep_passing]. unfold bind, ret. rewrite Hv, Hk. reflexivity.
    + split; [simpl; lia|].
      intros x Hx.
      assert (Hrest : In x kept ->
                In x (c :: cs) /\ Format.isValid (validateFormat x) = true /\
                exists w, reports_no_rows (fst (single x w))).
      { intros Hxk. destruct (Hin x Hxk) as (H1 & H2 & H3).
        split; [right; exact H1 | split; assumption]. }
      destruct (isValid v && isAvailable v) eqn:E; [|exact (Hrest Hx)].
      destruct Hx as [<- | Hx]; [|exact (Hrest Hx)].
      destruct (proj1 Hp eq_refl) as [H1 H2].
      split; [left; reflexivity|]. split; [exact H1|].
      exists (world env). exact H2.
Qed.

(** Against a steady store the sequential filter is the plain filter. *)
Lemma keep_passing_steady (answer : jsstring -> QueryResult)
  (cands : list jsstring) (env : Env World) :
  steady single answer ->
  exists env',
    keep_passing single cands env = (Normal (filter (passes answer) cands), env').
Proof.
  intros Hs. revert env; induction cands as [|c cs IH]; intros env.
  - exists env. reflexivity.
  - destruct (validateSubdomain_run c env) as (v & env1 & Hv & _ & Hp).
    destruct (IH env1) as (env2 & Hk).
    exists env2. cbn [keep_passing filter]. unfold bind, ret.
    rewrite Hv, Hk.
    assert (E : isValid v && isAvailable v = passes answer c).
    { apply eq_true_iff_eq. rewrite Hp, Hs, passes_iff.
      rewrite validateFormat_valid_iff. reflexivity. }
    rewrite E. reflexivity.
Qed.

(** With a base of 29 code units or more every candidate is too long, and
    the loop goes through without a lookup. *)
Lemma alternatives_loop_too_long (base : jsstring) (n : nat) (i : Z)
  (acc : list jsstring) (env : Env World) :
  29 <= length base ->
  alternatives_loop single base n i acc env = (Normal acc, env).
Proof.
  intros Hb. revert i acc; induction n as [|n IH]; intros i acc;
    [reflexivity|].
  cbn [alternatives_loop]. unfold bind.
  assert (Hlong : 30 < length (alternative_of base i)).
  { rewrite alternative_of_length. pose proof (of_number_nonempty i). lia. }
  rewrite validateSubdomain_invalid
    by (rewrite (validateFormat_too_long _ Hlong); reflexivity).
  rewrite (validateFormat_too_long _ Hlong). cbn [isValid andb].
  apply IH.
Qed.

End SearchFacts.

Lemma passes_taken (answer : jsstring -> QueryResult) (c : jsstring) :
  reports_record (answer c) -> passes answer c = false.
Proof.
  intros H. apply not_true_iff_false. rewrite passes_iff.
  intros [_ Hn]. exact (record_not_no_rows H Hn).
Qed.

Lemma passes_free (answer : jsstring -> QueryResult) (c : jsstring) :
  Format.isValid (validateFormat c) = true ->
  reports_no_rows (answer c) -> passes answer c = true.
Proof.
  intros Hf Hn. apply passes_iff. split; [|exact Hn].
  apply validateFormat_valid_iff, Hf.
Qed.

(** C4. [generateAlternatives(base, count)] completes normally with the
    candidates base-1, ..., base-count that pass the full
    [validateSubdomain], each checked in its turn, in ascending order of
    the suffix; there are [count] candidates and at most [count] lookups.
    Against a store whose answers do not change, the result is the
    candidates of valid format for which the store reports no row.  When
    every candidate is taken the result is the empty sequence, not an
    error.  With base "acme" and count 5, against a store where acme-1 and
    acme-3 are taken and acme-2, acme-4, acme-5 are free, the result is
    acme-2, acme-4, acme-5. *)
Theorem generateAlternatives_keeps_passing_candidates :
  (forall (World : Type) (single : jsstring -> World -> QueryResult * World)
          (base : jsstring) (count : Z) (env : Env World),
     exists kept env',
       generateAlternatives single base count env = (Normal kept, env') /\
       keep_passing single (candidates base count) env = (Normal kept, env') /\
       length (candidates base count) = Z.to_nat count /\
       length (lookups env') <= length (lookups env) + Z.to_nat count /\
       (forall answer,
          steady single answer ->
          kept = filter (passes answer) (candidates base count)) /\
       ((forall c w, In c (candidates base count) ->
                     reports_record (fst (single c w))) ->
        kept = [])) /\
  (forall (World : Type) (single : jsstring -> World -> QueryResult * World)
          (env : Env World) (answer : jsstring -> QueryResult),
     steady single answer ->
     reports_record (answer (lit "acme-1")) ->
     reports_record (answer (lit "acme-3")) ->
     reports_no_rows (answer (lit "acme-2")) ->
     reports_no_rows (answer (lit "acme-4")) ->
     reports_no_rows (answer (lit "acme-5")) ->
     fst (generateAlternatives single (lit "acme") 5 env)
     = Normal [lit "acme-2"; lit "acme-4"; lit "acme-5"]).
Proof.
  split.
  - intros World single base count env.
    destruct (keep_passing_run single (candidates base count) env)
      as (kept & env' & Hk & Hl & Hin).
    exists kept, env'. rewrite generateAlternatives_keep_passing.
    split; [exact Hk|]. split; [exact Hk|].
    split; [apply candidates_length|].
    split; [rewrite candidates_length in Hl; exact Hl|].
    split.
    + intros answer Hs.
      destruct (keep_passing_steady (candidates base count) env Hs)
        as (env2 & Hk2).
      rewrite Hk in Hk2. injection Hk2 as -> _. reflexivity.
    + intros Htaken. destruct kept as [|c kept]; [reflexivity|].
      destruct (Hin c (or_introl eq_refl)) as (Hc & _ & w & Hn).
      exfalso. exact (record_not_no_rows (Htaken c w Hc) Hn).
  - intros World single env answer Hs T1 T3 F2 F4 F5.
    rewrite generateAlternatives_keep_passing.
    destruct (keep_passing_steady (candidates (lit "acme") 5) env Hs)
      as (env' & Hk).
    rewrite Hk. cbn [fst].
    replace (candidates (lit "acme") 5)
      with [lit "acme-1"; lit "acme-2"; lit "acme-3"; lit "acme-4";
            lit "acme-5"]
      by (vm_compute; reflexivity).
    cbn [filter].
    rewrite (@passes_taken answer (lit "acme-1") T1),
      (@passes_taken answer (lit "acme-3") T3).
    rewrite (@passes_free answer (lit "acme-2") eq_refl F2),
      (@passes_free answer (lit "acme-4") eq_refl F4),
      (@passes_free answer (lit "acme-5") eq_refl F5).
    reflexivity.
Qed.

(** The in-memory table where "acme", "acme-1" and "acme-3" have a row. *)
Lemma generateAlternatives_keeps_passing_candidates_witness :
  steady (table_single acme_table) (table_answer acme_table) /\
  reports_record (table_answer acme_table (lit "acme-1")) /\
  reports_record (table_answer acme_table (lit "acme-3")) /\
  reports_no_rows (table_answer acme_table (lit "acme-2")) /\
  reports_no_rows (table_answer acme_table (lit "acme-4")) /\
  reports_no_rows (table_answer acme_table (lit "acme-5")) /\
  fst (generateAlternatives (table_single acme_table) (lit "acme") 5 (fresh tt))
  = Normal [lit "acme-2"; lit "acme-4"; lit "acme-5"].
Proof.
  assert (Hs : steady (table_single acme_table) (table_answer acme_table))
    by (intros key w; reflexivity).
  assert (T1 : reports_record (table_answer acme_table (lit "acme-1")))
    by (eexists; reflexivity).
  assert (T3 : reports_record (table_answer acme_table (lit "acme-3")))
    by (eexists; reflexivity).
  assert (F2 : reports_no_rows (table_answer acme_table (lit "acme-2")))
    by (eexists; eexists; split; reflexivity).
  assert (F4 : reports_no_rows (table_answer acme_table (lit "acme-4")))
    by (eexists; eexists; split; reflexivity).
  assert (F5 : reports_no_rows (table_answer acme_table (lit "acme-5")))
    by (eexists; eexists; split; reflexivity).
  repeat (split; [assumption|]).
  exact (proj2 generateAlternatives_keeps_passing_candidates
           unit (table_single acme_table) (fresh tt) (table_answer acme_table)
           Hs T1 T3 F2 F4 F5).
Defined.

(** C10. For every base of 29 code units or more and every count of 1 or
    more, [generateAlternatives(base, count)] gives the empty sequence
    whatever the store holds: each candidate base-i has 31 code units or
    more, so the rule on lengths above 30 rejects it, and no lookup is
    made (the store, the journal of lookups and the console stay as they
    were). *)
Theorem generateAlternatives_long_base_empty
  (World : Type) (single : jsstring -> World -> QueryResult * World)
  (base : jsstring) (count : Z) (env : Env World) :
  29 <= length base ->
  (1 <= count)%Z ->
  generateAlternatives single base count env = (Normal [], env) /\
  (forall i : Z,
     (1 <= i)%Z ->
     31 <= length (alternative_of base i) /\
     validateFormat (alternative_of base i) = reject msg_too_long /\
     validateSubdomain single (alternative_of base i) env =
     (Normal {| isValid := false; isAvailable := false;
                message := msg_too_long |}, env)).
Proof.
  intros Hb _. split.
  - apply alternatives_loop_too_long, Hb.
  - intros i _.
    assert (Hlong : 30 < length (alternative_of base i)).
    { rewrite alternative_of_length. pose proof (of_number_nonempty i). lia. }
    split; [lia|].
    split; [apply validateFormat_too_long, Hlong|].
    rewrite validateSubdomain_invalid
      by (rewrite (validateFormat_too_long _ Hlong); reflexivity).
    rewrite (validateFormat_too_long _ Hlong). reflexivity.
Qed.

(** A base of 29 letters, three candidates, an empty table: every name is
    free and none is offered. *)
Lemma generateAlternatives_long_base_empty_witness :
  29 <= length (repeat 97%N 29) /\
  (1 <= 3)%Z /\
  generateAlternatives (table_single []) (repeat 97%N 29) 3 (fresh tt)
  = (Normal [], fresh tt).
Proof.
  assert (Hb : 29 <= length (repeat 97%N 29)) by (vm_compute; lia).
  assert (Hc : (1 <= 3)%Z) by lia.
  split; [exact Hb|]. split; [exact Hc|].
  exact (proj1 (generateAlternatives_long_base_empty (table_single [])
                  (repeat 97%N 29) (fresh tt) Hb Hc)).
Defined.

(** ** Further properties of the policy engine *)

Lemma startsWith_hh (c : code_unit) (u : jsstring) :
  startsWith [hyphen; hyphen] (c :: u) = is_hyphen c && head_is_hyphen u.
Proof.
  unfold is_hyphen. cbn [startsWith]. rewrite (N.eqb_sym hyphen c).
  destruct u as [|d u]; [reflexivity|].
  cbn [startsWith head_is_hyphen]. unfold is_hyphen.
  rewrite (N.eqb_sym hyphen d), andb_true_r. reflexivity.
Qed.

Lemma includes_hh_no_adjacent (u : jsstring) :
  includes [hyphen; hyphen] u = negb (no_adjacent_hyphens u).
Proof.
  induction u as [|c u IH]; [reflexivity|].
  cbn [includes no_adjacent_hyphens]. rewrite IH, startsWith_hh.
  destruct (is_hyphen c && head_is_hyphen u), (no_adjacent_hyphens u);
    reflexivity.
Qed.

Lemma no_adjacent_prefix (u v : jsstring) :
  no_adjacent_hyphens (u ++ v) = true -> no_adjacent_hyphens u = true.
Proof.
  induction u as [|c u IH]; [reflexivity|].
  cbn [app no_adjacent_hyphens]. rewrite !andb_true_iff, !negb_true_iff.
  intros [H1 H2]. split; [|exact (IH H2)].
  destruct (is_hyphen c); [|reflexivity]. cbn [andb] in *.
  destruct u as [|d u]; [reflexivity | exact H1].
Qed.

Lemma head_prefix (u v : jsstring) :
  head_is_hyphen (u ++ v) = false -> head_is_hyphen u = false.
Proof. destruct u; [reflexivity | exact (fun H => H)]. Qed.

(** Removing the hyphen at the end leaves a prefix. *)
Lemma replace_edge_hyphens_from_prefix (u : jsstring) :
  exists v, u = replace_edge_hyphens_from false u ++ v.
Proof.
  destruct (rev u) as [|c r] eqn:E;
    apply (f_equal (@rev _)) in E; rewrite rev_involutive in E; subst u.
  - exists []. reflexivity.
  - simpl rev. rewrite replace_edge_hyphens_from_snoc.
    destruct (is_hyphen c); [exists [c] | exists []];
      rewrite ?app_nil_r; reflexivity.
Qed.

Lemma drop_head_hyphen_head (w : jsstring) :
  no_adjacent_hyphens w = true -> head_is_hyphen (drop_head_hyphen w) = false.
Proof.
  destruct w as [|c w]; [reflexivity|].
  cbn [no_adjacent_hyphens drop_head_hyphen].
  rewrite andb_true_iff, negb_true_iff. intros [H _].
  destruct (is_hyphen c) eqn:Hc; [exact H | exact Hc].
Qed.

(** What stands before the cut at 30: no hyphen in front, none behind, no
    two in a row. *)
Lemma stripped_shape (t : jsstring) :
  let w := replace_edge_hyphens (replace_hyphen_runs t) in
  head_is_hyphen w = false /\ no_adjacent_hyphens w = true.
Proof.
  cbv zeta. rewrite replace_hyphen_runs_collapse, replace_edge_hyphens_drop_head.
  pose proof (collapse_no_adjacent t) as Hna.
  destruct (strip_leading_one _ Hna) as [_ Hna'].
  pose proof (drop_head_hyphen_head _ Hna) as Hh.
  destruct (replace_edge_hyphens_from_prefix
              (drop_head_hyphen (Spec.collapse_hyphens t))) as [v Hv].
  rewrite Hv in Hna', Hh. split.
  - exact (head_prefix _ _ Hh).
  - exact (no_adjacent_prefix _ _ Hna').
Qed.

Lemma generateSubdomain_shape (toLowerCase : jsstring -> jsstring)
  (s : jsstring) :
  head_is_hyphen (generateSubdomain toLowerCase s) = false /\
  no_adjacent_hyphens (generateSubdomain toLowerCase s) = true /\
  forallb class_az09h (generateSubdomain toLowerCase s) = true /\
  length (generateSubdomain toLowerCase s) <= 30.
Proof.
  unfold generateSubdomain. rewrite substring_0.
  destruct (stripped_shape (replace_non_az09 (toLowerCase s))) as [Hh Hna].
  set (w := replace_edge_hyphens _) in *.
  rewrite <- (firstn_skipn 30 w) in Hh, Hna.
  split; [exact (head_prefix _ _ Hh)|].
  split; [exact (no_adjacent_prefix _ _ Hna)|].
  split; [|apply firstn_le_length].
  apply forallb_firstn. subst w.
  apply forallb_replace_edge_hyphens_from, forallb_replace_hyphen_runs_from.
  apply forallb_replace_non_az09.
Qed.

Lemma head_is_hyphen_spec (u : jsstring) :
  head_is_hyphen u = true <-> exists t, u = hyphen :: t.
Proof.
  destruct u as [|c u]; simpl.
  - split; [discriminate | intros [t [=]]].
  - rewrite is_hyphen_eq. split.
    + intros ->. exists u. reflexivity.
    + intros [t [= -> _]]. reflexivity.
Qed.

(** X2. The result of [generateSubdomain] never starts with a hyphen,
    never holds two hyphens in a row and never exceeds 30 code units, so
    [validateFormat] either accepts it or rejects it as too short, as
    ending with a hyphen, or as reserved: never as too long, for its
    characters, or for consecutive hyphens. *)
Theorem generateSubdomain_possible_verdicts
  (toLowerCase : jsstring -> jsstring) (s : jsstring) :
  (forall t, generateSubdomain toLowerCase s <> hyphen :: t) /\
  satisfies ConsecutiveHyphens (generateSubdomain toLowerCase s) /\
  (validateFormat (generateSubdomain toLowerCase s) = accept \/
   validateFormat (generateSubdomain toLowerCase s) = reject msg_too_short \/
   (validateFormat (generateSubdomain toLowerCase s) = reject msg_edge_hyphen /\
    exists t, generateSubdomain toLowerCase s = t ++ [hyphen]) \/
   validateFormat (generateSubdomain toLowerCase s) = reject msg_reserved).
Proof.
  destruct (generateSubdomain_shape toLowerCase s) as (Hh & Hna & Hcs & Hlen).
  set (out := generateSubdomain toLowerCase s) in *.
  assert (Hstart : forall t, out <> hyphen :: t).
  { intros t E. apply not_true_iff_false in Hh. apply Hh.
    apply head_is_hyphen_spec. exists t. exact E. }
  assert (Hcons : satisfies ConsecutiveHyphens out).
  { apply violated_false_iff. cbn [violated].
    rewrite includes_hh_no_adjacent, Hna. reflexivity. }
  split; [exact Hstart|]. split; [exact Hcons|].
  unfold validateFormat.
  destruct (length out <? 3) eqn:E1; [right; left; reflexivity|].
  destruct (Nat.ltb_spec 30 (length out)) as [Hgt|_]; [lia|].
  assert (Htest : test_az09h_plus out = true).
  { unfold test_az09h_plus. destruct out; [discriminate E1 | exact Hcs]. }
  rewrite Htest. cbn [negb].
  assert (Hsw : startsWith [hyphen] out = false).
  { apply not_true_iff_false. rewrite startsWith_spec.
    intros [t Ht]. exact (Hstart t Ht). }
  rewrite Hsw. cbn [orb].
  destruct (endsWith [hyphen] out) eqn:E4.
  { right; right; left. split; [reflexivity|].
    apply endsWith_spec, E4. }
  rewrite includes_hh_no_adjacent, Hna. cbn [negb].
  destruct (array_includes out RESERVED_SUBDOMAINS);
    [right; right; right; reflexivity | left; reflexivity].
Qed.

Lemma class_az09_not_hyphen (c : code_unit) :
  class_az09 c = true -> is_hyphen c = false.
Proof.
  unfold class_az09, is_lower, is_digit, is_hyphen, hyphen.
  rewrite orb_true_iff, !andb_true_iff, !N.leb_le, N.eqb_neq. lia.
Qed.

Lemma forallb_is_hyphen_replace_non_az09 (t : jsstring) :
  forallb is_hyphen (replace_non_az09 t) = true <->
  forall c, In c t -> class_az09 c = false.
Proof.
  induction t as [|c t IH].
  - simpl. split; [intros _ c [] | reflexivity].
  - cbn [replace_non_az09 map forallb]. fold (replace_non_az09 t).
    rewrite andb_true_iff, IH. split.
    + intros [Hc Ht] x [<- | Hx]; [|exact (Ht x Hx)].
      destruct (class_az09 c) eqn:E; [|reflexivity].
      rewrite (class_az09_not_hyphen _ E) in Hc. discriminate Hc.
    + intros H. split.
      * rewrite (H c (or_introl eq_refl)). reflexivity.
      * intros x Hx. apply H. right. exact Hx.
Qed.

Lemma forallb_is_hyphen_collapse (u : jsstring) :
  forallb is_hyphen (Spec.collapse_hyphens u) = forallb is_hyphen u.
Proof.
  induction u as [|c u IH]; [reflexivity|].
  rewrite collapse_cons. cbn [forallb].
  destruct (is_hyphen c) eqn:Hc; cbn [andb].
  - destruct (head_is_hyphen u); [exact IH|].
    cbn [forallb]. rewrite Hc. exact IH.
  - cbn [forallb]. rewrite Hc. reflexivity.
Qed.

Lemma strip_leading_nil (u : jsstring) :
  Spec.strip_leading_hyphens u = [] <-> forallb is_hyphen u = true.
Proof.
  induction u as [|c u IH]; [simpl; tauto|].
  cbn [Spec.strip_leading_hyphens forallb].
  destruct (is_hyphen c); cbn [andb]; [exact IH|].
  split; discriminate.
Qed.

Lemma strip_leading_head (u : jsstring) :
  head_is_hyphen (Spec.strip_leading_hyphens u) = false.
Proof.
  induction u as [|c u IH]; [reflexivity|].
  cbn [Spec.strip_leading_hyphens].
  destruct (is_hyphen c) eqn:Hc; [exact IH | exact Hc].
Qed.

Lemma forallb_rev (f : code_unit -> bool) (u : jsstring) :
  forallb f (rev u) = forallb f u.
Proof.
  apply eq_true_iff_eq. rewrite !forallb_forall.
  split; intros H x Hx; apply H; apply in_rev;
    rewrite ?rev_involutive; exact Hx.
Qed.

Lemma strip_hyphens_nil (u : jsstring) :
  Spec.strip_hyphens u = [] <-> forallb is_hyphen u = true.
Proof.
  unfold Spec.strip_hyphens, Spec.strip_trailing_hyphens.
  rewrite <- strip_leading_nil. split.
  - intros H. apply (f_equal (@rev _)) in H. rewrite rev_involutive in H.
    simpl in H. apply strip_leading_nil in H. rewrite forallb_rev in H.
    pose proof (strip_leading_head u) as Hh.
    destruct (Spec.strip_leading_hyphens u) as [|c w]; [reflexivity|].
    cbn in H, Hh. rewrite Hh in H. discriminate H.
  - intros ->. reflexivity.
Qed.

(** X3. [generateSubdomain] gives the empty string exactly when the
    lowercased name holds no letter [a-z] and no digit: only then is there
    nothing left between the hyphens. *)
Theorem generateSubdomain_empty_iff
  (toLowerCase : jsstring -> jsstring) (s : jsstring) :
  generateSubdomain toLowerCase s = [] <->
  forall c, In c (toLowerCase s) -> class_az09 c = false.
Proof.
  rewrite generateSubdomain_normalize. unfold Spec.normalize, Spec.truncate.
  rewrite <- forallb_is_hyphen_replace_non_az09.
  change (Spec.hyphenate_outside_az09 (toLowerCase s))
    with (replace_non_az09 (toLowerCase s)).
  rewrite <- forallb_is_hyphen_collapse, <- strip_hyphens_nil.
  destruct (Spec.strip_hyphens _); simpl; split; congruence.
Qed.

Lemma class_az09h_ascii_lower (c : code_unit) :
  class_az09h c = true -> is_ascii c = true /\ ascii_lower c = c.
Proof.
  unfold class_az09h, class_az09, is_lower, is_digit, is_hyphen, hyphen,
    is_ascii, ascii_lower.
  rewrite !orb_true_iff, !andb_true_iff, !N.leb_le, N.eqb_eq, N.ltb_lt.
  intros H. split; [lia|].
  destruct (N.leb_spec 65 c), (N.leb_spec c 90); cbn [andb]; try reflexivity.
  lia.
Qed.

Lemma map_ascii_lower_id (s : jsstring) :
  forallb class_az09h s = true ->
  forallb is_ascii s = true /\ map ascii_lower s = s.
Proof.
  induction s as [|c s IH]; [split; reflexivity|].
  cbn [forallb map]. rewrite andb_true_iff. intros [Hc Hs].
  destruct (class_az09h_ascii_lower _ Hc) as [Ha Hl].
  destruct (IH Hs) as [Ha' Hl'].
  rewrite Ha, Ha', Hl, Hl'. split; reflexivity.
Qed.

Lemma replace_non_az09_id (s : jsstring) :
  forallb class_az09h s = true -> replace_non_az09 s = s.
Proof.
  induction s as [|c s IH]; [reflexivity|].
  cbn [forallb replace_non_az09 map]. fold (replace_non_az09 s).
  rewrite andb_true_iff. intros [Hc Hs]. rewrite (IH Hs).
  unfold class_az09h in Hc.
  destruct (class_az09 c); [reflexivity|].
  cbn [orb] in Hc. apply is_hyphen_eq in Hc. rewrite Hc. reflexivity.
Qed.

Lemma collapse_id (s : jsstring) :
  no_adjacent_hyphens s = true -> Spec.collapse_hyphens s = s.
Proof.
  induction s as [|c s IH]; [reflexivity|].
  cbn [no_adjacent_hyphens]. rewrite andb_true_iff, negb_true_iff.
  intros [H1 H2]. rewrite collapse_cons, H1, (IH H2). reflexivity.
Qed.

Lemma replace_edge_hyphens_id (s : jsstring) :
  startsWith [hyphen] s = false -> endsWith [hyphen] s = false ->
  replace_edge_hyphens s = s.
Proof.
  intros Hs He. rewrite replace_edge_hyphens_drop_head.
  assert (Hd : drop_head_hyphen s = s).
  { destruct s as [|c s]; [reflexivity|]. cbn [drop_head_hyphen].
    destruct (is_hyphen c) eqn:Hc; [|reflexivity].
    apply is_hyphen_eq in Hc. subst c.
    apply not_true_iff_false in Hs. exfalso. apply Hs.
    apply startsWith_spec. exists s. reflexivity. }
  rewrite Hd.
  destruct (rev s) as [|c r] eqn:E;
    apply (f_equal (@rev _)) in E; rewrite rev_involutive in E.
  - subst s. reflexivity.
  - simpl in E. rewrite E, replace_edge_hyphens_from_snoc.
    destruct (is_hyphen c) eqn:Hc; [|reflexivity].
    apply is_hyphen_eq in Hc. subst c.
    apply not_true_iff_false in He. exfalso. apply He.
    apply endsWith_spec. exists (rev r). exact E.
Qed.

(** X1. A name that passes [validateFormat] is left as it is by
    [generateSubdomain]: normalizing a valid subdomain changes nothing. *)
Theorem generateSubdomain_fixes_valid
  (toLowerCase : jsstring -> jsstring) (s : jsstring) :
  lowers_ascii toLowerCase ->
  Format.isValid (validateFormat s) = true ->
  generateSubdomain toLowerCase s = s.
Proof.
  intros Hlow Hvalid. unfold validateFormat in Hvalid.
  destruct (length s <? 3); [discriminate Hvalid|].
  destruct (Nat.ltb_spec 30 (length s)) as [|Hlen]; [discriminate Hvalid|].
  destruct (test_az09h_plus s) eqn:Ht; [|discriminate Hvalid].
  cbn [negb] in Hvalid.
  destruct (startsWith [hyphen] s) eqn:Hs; [discriminate Hvalid|].
  destruct (endsWith [hyphen] s) eqn:He; [discriminate Hvalid|].
  cbn [orb] in Hvalid.
  destruct (includes [hyphen; hyphen] s) eqn:Hi; [discriminate Hvalid|].
  rewrite includes_hh_no_adjacent, negb_false_iff in Hi.
  assert (Hcs : forallb class_az09h s = true)
    by (destruct s; [discriminate Ht | exact Ht]).
  destruct (map_ascii_lower_id s Hcs) as [Ha Hl].
  unfold generateSubdomain.
  rewrite (Hlow s Ha), Hl, (replace_non_az09_id s Hcs).
  rewrite replace_hyphen_runs_collapse, (collapse_id s Hi).
  rewrite (replace_edge_hyphens_id s Hs He), substring_0.
  apply firstn_all2. exact Hlen.
Qed.

Lemma generateSubdomain_fixes_valid_witness :
  lowers_ascii toLowerCase_ascii_only /\
  Format.isValid (validateFormat (lit "acme-corp")) = true /\
  generateSubdomain toLowerCase_ascii_only (lit "acme-corp") = lit "acme-corp".
Proof.
  assert (H : lowers_ascii toLowerCase_ascii_only)
    by (intros s _; reflexivity).
  split; [exact H|]. split; [reflexivity|].
  exact (generateSubdomain_fixes_valid (lit "acme-corp") H eq_refl).
Defined.

Lemma reserved_first_five_pass :
  forallb
    (fun s => negb (violated MinLength s || violated MaxLength s ||
                    violated Charset s || violated EdgeHyphen s ||
                    violated ConsecutiveHyphens s))
    RESERVED_SUBDOMAINS = true.
Proof. vm_compute. reflexivity. Qed.

Lemma validateFormat_reserved (s : jsstring) :
  In s RESERVED_SUBDOMAINS -> validateFormat s = reject msg_reserved.
Proof.
  intros Hin.
  pose proof (proj1 (forallb_forall _ _) reserved_first_five_pass s Hin) as H.
  rewrite negb_true_iff, !orb_false_iff in H.
  destruct H as [[[[H1 H2] H3] H4] H5].
  rewrite validateFormat_find, (@find_first_violated s NotReserved);
    [reflexivity | |].
  - apply array_includes_spec, Hin.
  - intros r' Hr. destruct r'; simpl in Hr; try assumption; lia.
Qed.

(** X4. Every name of the reserved list is rejected with the reserved
    message (none of them is caught by an earlier rule), and
    [validateSubdomain] answers for it without asking the store, whether
    the store holds the name or not. *)
Theorem reserved_names_rejected_without_lookup (s : jsstring) :
  In s RESERVED_SUBDOMAINS ->
  validateFormat s = reject msg_reserved /\
  forall (World : Type) (single : jsstring -> World -> QueryResult * World)
         (env : Env World),
    validateSubdomain single s env =
    (Normal {| isValid := false; isAvailable := false;
               message := msg_reserved |}, env).
Proof.
  intros Hin. pose proof (@validateFormat_reserved s Hin) as Hr.
  split; [exact Hr|]. intros World single env.
  rewrite validateSubdomain_invalid by (rewrite Hr; reflexivity).
  rewrite Hr. reflexivity.
Qed.

Lemma reserved_names_rejected_without_lookup_witness :
  In (lit "admin") RESERVED_SUBDOMAINS /\
  validateSubdomain (table_single []) (lit "admin") (fresh tt) =
  (Normal {| isValid := false; isAvailable := false;
             message := msg_reserved |}, fresh tt).
Proof.
  assert (H : In (lit "admin") RESERVED_SUBDOMAINS)
    by (apply array_includes_spec; reflexivity).
  split; [exact H|].
  exact (proj2 (@reserved_names_rejected_without_lookup (lit "admin") H)
           unit (table_single []) (fresh tt)).
Defined.

(** ** Further properties of the resolver *)

(** X5. [checkAvailability] writes to the console exactly when the lookup
    failed, and then one entry carrying the fault: the thrown value when
    the promise was rejected, the error object when the response carried
    an error other than the no-rows one.  After a no-rows answer or a
    found record the console is as before. *)
Theorem checkAvailability_logs_failures_only
  (World : Type) (single : jsstring -> World -> QueryResult * World)
  (s : jsstring) (env : Env World) :
  exists b env',
    checkAvailability single s env = (Normal b, env') /\
    (forall x,
       fst (single s (world env)) = Rejected x ->
       console env' = console env ++ [LoggedExn msg_check_error x]) /\
    (forall data e,
       fst (single s (world env)) = Response data (Some e) ->
       code e <> Some PGRST116 ->
       console env' = console env ++ [LoggedError msg_check_error e]) /\
    (~ lookup_failed (fst (single s (world env))) ->
     console env' = console env).
Proof.
  unfold checkAvailability, try_catch, bind, await_single, lookup_failed.
  destruct (single s (world env)) as [q w]. cbn [fst].
  destruct q as [data [e|] | x].
  - destruct (code_is_PGRST116 e) eqn:E.
    + eexists; eexists. split; [reflexivity|]. split; [intros x [=]|].
      split; [|reflexivity].
      intros d e' [= _ <-] Hne. apply code_is_PGRST116_spec in E.
      contradiction.
    + eexists; eexists. split; [reflexivity|]. split; [intros x [=]|].
      split; [intros d e' [= _ <-] _; reflexivity|].
      intros Hnf. exfalso. apply Hnf. right. exists data, e.
      split; [reflexivity|]. intros Hc.
      apply code_is_PGRST116_spec in Hc. congruence.
  - eexists; eexists. split; [reflexivity|]. split; [intros x [=]|].
    split; [intros d e' [=] | reflexivity].
  - eexists; eexists. split; [reflexivity|].
    split; [intros y [= <-]; reflexivity|].
    split; [intros d e' [=]|].
    intros Hnf. exfalso. apply Hnf. left. exists x. reflexivity.
Qed.

(** The store out of reach: one entry, the thrown value. *)
Lemma checkAvailability_logs_failures_only_witness :
  fst (unreachable_single (lit "acme") tt) = Rejected (JsError "fetch failed") /\
  exists env',
    snd (checkAvailability unreachable_single (lit "acme") (fresh tt)) = env' /\
    console env' = [] ++ [LoggedExn msg_check_error (JsError "fetch failed")].
Proof.
  split; [reflexivity|].
  destruct (checkAvailability_logs_failures_only unreachable_single
              (lit "acme") (fresh tt)) as (b & env' & Hc & Hx & _).
  exists env'. split; [rewrite Hc; reflexivity|].
  exact (Hx (JsError "fetch failed") eq_refl).
Defined.

Lemma string_neq (a b : string) : String.eqb a b = false -> a <> b.
Proof. intros H E. apply String.eqb_eq in E. congruence. Qed.

Lemma rule_message_not_verdict (r : Rule) :
  rule_message r <> msg_available /\ rule_message r <> msg_taken.
Proof. destruct r; split; apply string_neq; reflexivity. Qed.

(** X6. [validateSubdomain] never throws, whatever the store does.  In its
    answer [isValid] is the verdict of [validateFormat]; a name is never
    reported available without being valid; the message is "Subdomain is
    available" exactly when the name is available, and "Subdomain is
    already taken" exactly when it is valid and not available. *)
Theorem validateSubdomain_answer_coherent
  (World : Type) (single : jsstring -> World -> QueryResult * World)
  (s : jsstring) (env : Env World) :
  exists r env',
    validateSubdomain single s env = (Normal r, env') /\
    isValid r = Format.isValid (validateFormat s) /\
    (isAvailable r = true -> isValid r = true) /\
    (message r = msg_available <-> isAvailable r = true) /\
    (message r = msg_taken <-> isValid r = true /\ isAvailable r = false).
Proof.
  destruct (Format.isValid (validateFormat s)) eqn:Hf.
  - destruct (validateSubdomain_valid single s env Hf)
      as (b & env' & _ & Hv & _).
    eexists; exists env'. split; [exact Hv|]. cbn [isValid isAvailable message].
    split; [reflexivity|]. split; [reflexivity|].
    destruct b.
    + split; [split; reflexivity|].
      split; [|intros [_ H]; discriminate H].
      intros E. exfalso. revert E. apply string_neq. reflexivity.
    + split; [|split; [intros _; split; reflexivity | reflexivity]].
      split; [|discriminate].
      intros E. exfalso. revert E. apply string_neq. reflexivity.
  - eexists; exists env. split; [apply validateSubdomain_invalid, Hf|].
    cbn [isValid isAvailable message].
    split; [reflexivity|]. split; [discriminate|].
    assert (Hm : exists r, Format.message (validateFormat s) = rule_message r).
    { rewrite validateFormat_find in Hf |- *.
      destruct (find (fun r => violated r s) rules_in_order) as [r|];
        [exists r; reflexivity | discriminate Hf]. }
    destruct Hm as [r ->].
    destruct (rule_message_not_verdict r) as [Ha Ht].
    split; [split; [intros E; contradiction | discriminate]|].
    split; [intros E; contradiction | intros [H _]; discriminate H].
Qed.

(** *** The alternatives that come back *)

Lemma lit_inj (a b : string) : lit a = lit b -> a = b.
Proof.
  unfold lit. intros H.
  rewrite <- (string_of_list_ascii_of_string a),
          <- (string_of_list_ascii_of_string b).
  f_equal. revert H.
  generalize (list_ascii_of_string a) (list_ascii_of_string b).
  induction l as [|x l IH]; intros [|y l']; simpl; try discriminate;
    [reflexivity|].
  intros [= Hxy Hl]. f_equal; [|exact (IH _ Hl)].
  rewrite <- (ascii_N_embedding x), <- (ascii_N_embedding y), Hxy.
  reflexivity.
Qed.

(** Two integers are printed alike only when they are the same. *)
Lemma of_number_inj (i j : Z) : of_number i = of_number j -> i = j.
Proof.
  unfold of_number. intros H. apply lit_inj in H.
  apply DecimalZ.to_int_inj.
  apply (f_equal NilEmpty.int_of_string) in H.
  rewrite !NilEmpty.isi in H. injection H as H. exact H.
Qed.

Lemma alternative_of_inj (base : jsstring) (i j : Z) :
  alternative_of base i = alternative_of base j -> i = j.
Proof.
  unfold alternative_of. intros H. apply app_inv_head in H.
  simpl in H. injection H as H. exact (of_number_inj _ _ H).
Qed.

Lemma candidates_NoDup (base : jsstring) (count : Z) :
  NoDup (candidates base count).
Proof.
  unfold candidates. apply Finite.Injective_map_NoDup; [|apply seq_NoDup].
  intros x y H. apply alternative_of_inj in H. lia.
Qed.

Lemma candidates_In (base : jsstring) (count : Z) (c : jsstring) :
  In c (candidates base count) ->
  exists i, (1 <= i <= count)%Z /\ c = base ++ hyphen :: of_number i.
Proof.
  unfold candidates. rewrite in_map_iff. intros [k [<- Hk]].
  apply in_seq in Hk. exists (Z.of_nat k). split; [lia | reflexivity].
Qed.

Section ResultFacts.

Variable World : Type.
Variable single : jsstring -> World -> QueryResult * World.

(** What is kept is taken from the candidates in their order, each at most
    once. *)
Lemma keep_passing_sub (cands : list jsstring) (env : Env World) :
  exists kept env',
    keep_passing single cands env = (Normal kept, env') /\
    incl kept cands /\
    length kept <= length cands /\
    (NoDup cands -> NoDup kept).
Proof.
  revert env; induction cands as [|c cs IH]; intros env.
  - exists [], env. repeat split; auto using incl_refl. 
  - destruct (validateSubdomain_run single c env) as (v & env1 & Hv & _ & _).
    destruct (IH env1) as (kept & env2 & Hk & Hincl & Hlen & Hnd).
    eexists; exists env2. split.
    { cbn [keep_passing]. unfold bind, ret. rewrite Hv, Hk. reflexivity. }
    destruct (isValid v && isAvailable v).
    + split; [|split].
      * intros x [<- | Hx]; [left; reflexivity | right; exact (Hincl x Hx)].
      * simpl. lia.
      * intros Hc. inversion Hc as [|? ? Hnotin Hcs]; subst.
        constructor; [|exact (Hnd Hcs)].
        intros Hin. exact (Hnotin (Hincl c Hin)).
    + split; [|split].
      * intros x Hx. right. exact (Hincl x Hx).
      * simpl. lia.
      * intros Hc. inversion Hc; subst. auto.
Qed.

(** No lookup, no change, when no candidate can pass the format. *)
Lemma alternatives_loop_all_invalid (base : jsstring) (n : nat) (i : Z)
  (acc : list jsstring) (env : Env World) :
  (forall k, Format.isValid (validateFormat (alternative_of base k)) = false) ->
  alternatives_loop single base n i acc env = (Normal acc, env).
Proof.
  intros Hbad. revert i acc; induction n as [|n IH]; intros i acc;
    [reflexivity|].
  cbn [alternatives_loop]. unfold bind.
  rewrite validateSubdomain_invalid by apply Hbad.
  cbn [isValid andb]. apply IH.
Qed.

End ResultFacts.

Lemma invalid_of_unsatisfied (r : Rule) (s : jsstring) :
  ~ satisfies r s -> Format.isValid (validateFormat s) = false.
Proof.
  intros H. apply not_true_iff_false. rewrite validateFormat_valid_iff.
  intros Hall. exact (H (Hall r)).
Qed.

(** X7. The alternatives that [generateAlternatives] returns are pairwise
    distinct and at most [count]; each one is the base followed by a
    hyphen and the decimal digits of some i from 1 to [count], and each
    one satisfies all six format rules. *)
Theorem generateAlternatives_results_wellformed
  (World : Type) (single : jsstring -> World -> QueryResult * World)
  (base : jsstring) (count : Z) (env env' : Env World)
  (kept : list jsstring) :
  generateAlternatives single base count env = (Normal kept, env') ->
  NoDup kept /\
  length kept <= Z.to_nat count /\
  (forall c,
     In c kept ->
     (exists i, (1 <= i <= count)%Z /\ c = base ++ hyphen :: of_number i) /\
     (forall r, satisfies r c)).
Proof.
  rewrite generateAlternatives_keep_passing. intros Hrun.
  destruct (keep_passing_sub single (candidates base count) env)
    as (k1 & e1 & H1 & Hincl & Hlen & Hnd).
  destruct (keep_passing_run single (candidates base count) env)
    as (k2 & e2 & H2 & _ & Hin).
  rewrite Hrun in H1, H2. injection H1 as <- _. injection H2 as <- _.
  split; [exact (Hnd (candidates_NoDup base count))|].
  split; [rewrite candidates_length in Hlen; exact Hlen|].
  intros c Hc. destruct (Hin c Hc) as (Hcand & Hvalid & _).
  split; [exact (candidates_In _ _ _ Hcand)|].
  apply validateFormat_valid_iff, Hvalid.
Qed.

Lemma generateAlternatives_results_wellformed_witness :
  generateAlternatives (table_single acme_table) (lit "acme") 5 (fresh tt)
  = (Normal [lit "acme-2"; lit "acme-4"; lit "acme-5"],
     snd (generateAlternatives (table_single acme_table) (lit "acme") 5
            (fresh tt))) /\
  NoDup [lit "acme-2"; lit "acme-4"; lit "acme-5"] /\
  (forall r, satisfies r (lit "acme-4")).
Proof.
  assert (Hrun :
    generateAlternatives (table_single acme_table) (lit "acme") 5 (fresh tt)
    = (Normal [lit "acme-2"; lit "acme-4"; lit "acme-5"],
       snd (generateAlternatives (table_single acme_table) (lit "acme") 5
              (fresh tt))))
    by (vm_compute; reflexivity).
  split; [exact Hrun|].
  destruct (generateAlternatives_results_wellformed _ _ _ _ Hrun)
    as (Hnd & _ & Hall).
  split; [exact Hnd|].
  apply (Hall (lit "acme-4")). right. left. reflexivity.
Defined.

(** X8. From a base that is empty, holds a code unit outside [a-z0-9-],
    starts or ends with a hyphen, or holds two hyphens in a row,
    [generateAlternatives] offers nothing and asks the store nothing,
    whatever [count] is: every candidate base-i breaks a format rule. *)
Theorem generateAlternatives_malformed_base
  (World : Type) (single : jsstring -> World -> QueryResult * World)
  (base : jsstring) (count : Z) (env : Env World) :
  base = [] \/
  (exists c, In c base /\ ~ in_az09h c) \/
  (exists t, base = hyphen :: t) \/
  (exists t, base = t ++ [hyphen]) \/
  (exists u v, base = u ++ hyphen :: hyphen :: v) ->
  generateAlternatives single base count env = (Normal [], env).
Proof.
  intros Hbad. apply alternatives_loop_all_invalid. intros k.
  unfold alternative_of.
  destruct Hbad as [-> | [(c & Hc & Hout) | [(t & ->) | [(t & ->) | (u & v & ->)]]]].
  - apply (@invalid_of_unsatisfied EdgeHyphen). intros [H _].
    exact (H (of_number k) eq_refl).
  - apply (@invalid_of_unsatisfied Charset). intros [_ H].
    apply Hout, H, in_or_app. left. exact Hc.
  - apply (@invalid_of_unsatisfied EdgeHyphen). intros [H _].
    exact (H (t ++ [hyphen] ++ of_number k) eq_refl).
  - apply (@invalid_of_unsatisfied ConsecutiveHyphens). intros H.
    apply (H t (of_number k)). rewrite <- app_assoc. reflexivity.
  - apply (@invalid_of_unsatisfied ConsecutiveHyphens). intros H.
    apply (H u (v ++ [hyphen] ++ of_number k)).
    rewrite <- app_assoc. reflexivity.
Qed.

(** "acme-" ends with a hyphen: nothing is offered and the empty table is
    not read. *)
Lemma generateAlternatives_malformed_base_witness :
  (exists t, lit "acme-" = t ++ [hyphen]) /\
  generateAlternatives (table_single []) (lit "acme-") 5 (fresh tt)
  = (Normal [], fresh tt).
Proof.
  assert (H : exists t, lit "acme-" = t ++ [hyphen])
    by (exists (lit "acme"); reflexivity).
  split; [exact H|].
  apply generateAlternatives_malformed_base.
  right; right; right; left. exact H.
Defined.

(** ** Addresses: building them and reading them back *)

Lemma leftmost_label_app (label rest : jsstring) :
  ~ In dot label -> Spec.leftmost_label (label ++ dot :: rest) = label.
Proof.
  induction label as [|c label IH]; intros Hno.
  - reflexivity.
  - cbn [app Spec.leftmost_label].
    destruct (N.eqb_spec c dot) as [->|_].
    + exfalso. apply Hno. left. reflexivity.
    + rewrite IH; [reflexivity|]. intros H. apply Hno. right. exact H.
Qed.

Lemma parts_count_app (label rest : jsstring) :
  ~ In dot label ->
  Spec.parts_count (label ++ dot :: rest) = S (Spec.parts_count rest).
Proof.
  intros Hno. unfold Spec.parts_count, jsstring, code_unit in *.
  rewrite count_occ_app, (proj1 (count_occ_not_In N.eq_dec label dot) Hno).
  rewrite count_occ_cons_eq by reflexivity. reflexivity.
Qed.

Lemma extractSubdomainFromHost_some (h : jsstring) :
  ~ Spec.is_loopback h -> 3 <= Spec.parts_count h ->
  extractSubdomainFromHost h = Some (Spec.leftmost_label h).
Proof.
  intros Hnl Hparts. unfold extractSubdomainFromHost, split.
  rewrite split_from_length, split_from_first.
  destruct (eqb h (lit "localhost")) eqn:E1.
  { apply eqb_eq in E1. exfalso. apply Hnl. left. exact E1. }
  destruct (eqb h (lit "127.0.0.1")) eqn:E2.
  { apply eqb_eq in E2. exfalso. apply Hnl. right. exact E2. }
  cbn [orb]. unfold Spec.parts_count in Hparts.
  apply Nat.leb_le in Hparts. rewrite Hparts. reflexivity.
Qed.

Lemma extractSubdomainFromHost_few_parts (h : jsstring) :
  Spec.parts_count h < 3 -> extractSubdomainFromHost h = None.
Proof.
  intros Hparts. unfold extractSubdomainFromHost, split.
  rewrite split_from_length.
  destruct (eqb h (lit "localhost") || eqb h (lit "127.0.0.1"));
    [reflexivity|].
  unfold Spec.parts_count in Hparts.
  destruct (Nat.leb_spec 3 (S (count_occ N.eq_dec h dot)));
    [lia | reflexivity].
Qed.

(** X9. In production [getSubdomainUrl] builds protocol://subdomain.domain
    with the domain of VITE_DOMAIN, or uproom.com when that is unset or
    empty.  When the subdomain holds no dot and the domain holds one, the
    host name subdomain.domain read back by the rule of
    [getCurrentSubdomain] gives this very subdomain (the one host name
    127.0.0.1 apart). *)
Theorem getSubdomainUrl_host_reads_back
  (env : ProcessEnv) (subdomain protocol domain : jsstring) :
  env "NODE_ENV"%string = Some (lit "production") ->
  domain = or_else (env "VITE_DOMAIN"%string) (lit "uproom.com") ->
  ~ In dot subdomain ->
  In dot domain ->
  subdomain ++ dot :: domain <> lit "127.0.0.1" ->
  getSubdomainUrl env subdomain protocol
  = protocol ++ lit "://" ++ (subdomain ++ dot :: domain) /\
  extractSubdomainFromHost (subdomain ++ dot :: domain) = Some subdomain.
Proof.
  intros Hprod -> Hsub Hdom Hnot. split.
  - unfold getSubdomainUrl. rewrite Hprod.
    replace (is_string (Some (lit "production")) (lit "production"))
      with true by (symmetry; apply eqb_refl).
    reflexivity.
  - rewrite extractSubdomainFromHost_some.
    + rewrite (@leftmost_label_app _ _ Hsub). reflexivity.
    + intros [H | H]; [|exact (Hnot H)].
      assert (Hin : In dot (lit "localhost"))
        by (rewrite <- H; apply in_or_app; right; left; reflexivity).
      vm_compute in Hin. intuition discriminate.
    + rewrite (@parts_count_app _ _ Hsub).
      unfold Spec.parts_count, jsstring, code_unit in *.
      apply (count_occ_In N.eq_dec) in Hdom. lia.
Qed.

(** "acme" under the default domain. *)
Lemma getSubdomainUrl_host_reads_back_witness :
  getSubdomainUrl production_env (lit "acme") (lit "https")
  = lit "https://acme.uproom.com" /\
  extractSubdomainFromHost (lit "acme.uproom.com") = Some (lit "acme").
Proof.
  apply (@getSubdomainUrl_host_reads_back production_env (lit "acme")
           (lit "https") (lit "uproom.com")).
  - reflexivity.
  - reflexivity.
  - vm_compute. intuition discriminate.
  - vm_compute. intuition.
  - discriminate.
Defined.

(** X10. Outside production [getSubdomainUrl] builds
    protocol://subdomain.localhost:8080 and ignores VITE_DOMAIN.  The host
    name of such an address, subdomain.localhost, has two parts only, so
    the rule of [getCurrentSubdomain] gives none for it, for every
    subdomain without a dot: in development the subdomain of a built
    address is not read back. *)
Theorem development_host_not_read_back
  (env : ProcessEnv) (subdomain protocol : jsstring) :
  is_string (env "NODE_ENV"%string) (lit "production") = false ->
  ~ In dot subdomain ->
  getSubdomainUrl env subdomain protocol
  = protocol ++ lit "://" ++ subdomain ++ lit ".localhost:8080" /\
  extractSubdomainFromHost (subdomain ++ lit ".localhost") = None.
Proof.
  intros Hdev Hsub. split.
  - unfold getSubdomainUrl. rewrite Hdev. reflexivity.
  - apply extractSubdomainFromHost_few_parts.
    change (lit ".localhost") with (dot :: lit "localhost").
    rewrite (@parts_count_app _ _ Hsub). vm_compute. lia.
Qed.

Lemma development_host_not_read_back_witness :
  is_string (development_env "NODE_ENV"%string) (lit "production") = false /\
  ~ In dot (lit "acme") /\
  getSubdomainUrl development_env (lit "acme") (lit "http")
  = lit "http://acme.localhost:8080" /\
  extractSubdomainFromHost (lit "acme.localhost") = None.
Proof.
  assert (Hd : is_string (development_env "NODE_ENV"%string) (lit "production")
               = false) by reflexivity.
  assert (Hs : ~ In dot (lit "acme")) by (vm_compute; intuition discriminate).
  split; [exact Hd|]. split; [exact Hs|].
  exact (@development_host_not_read_back development_env (lit "acme")
           (lit "http") Hd Hs).
Defined.

(** ** Loading the environment of the API server *)

Section LoadFacts.

Variable Number : Type.
Variable parseInt : jsstring -> Number.
Variable show : Number -> jsstring.

Lemma falsy_false_iff (v : option jsstring) :
  EnvTs.falsy v = false <-> exists c w, v = Some (c :: w).
Proof.
  destruct v as [[|c w]|]; simpl; split; try discriminate;
    try (intros [c' [w' [=]]]).
  - intros _. exists c, w. reflexivity.
  - reflexivity.
Qed.

(** The loop collects, in the order of the declaration, the required names
    whose variable is unset or empty. *)
Lemma missingVars_filter (penv : ProcessEnv) :
  EnvTs.missingVars penv =
  filter (fun name => EnvTs.falsy (penv name))
    ["SUPABASE_URL"; "SUPABASE_SERVICE_ROLE_KEY"; "DATABASE_URL"]%string.
Proof.
  unfold EnvTs.missingVars, EnvTs.requiredEnvVars. cbn [fold_left filter fst snd].
  destruct (EnvTs.falsy (penv "SUPABASE_URL"%string)),
           (EnvTs.falsy (penv "SUPABASE_SERVICE_ROLE_KEY"%string)),
           (EnvTs.falsy (penv "DATABASE_URL"%string)); reflexivity.
Qed.

Lemma missingVars_nil_iff (penv : ProcessEnv) :
  EnvTs.missingVars penv = [] <->
  EnvTs.falsy (penv "SUPABASE_URL"%string) = false /\
  EnvTs.falsy (penv "SUPABASE_SERVICE_ROLE_KEY"%string) = false /\
  EnvTs.falsy (penv "DATABASE_URL"%string) = false.
Proof.
  rewrite missingVars_filter. cbn [filter].
  destruct (EnvTs.falsy (penv "SUPABASE_URL"%string)),
           (EnvTs.falsy (penv "SUPABASE_SERVICE_ROLE_KEY"%string)),
           (EnvTs.falsy (penv "DATABASE_URL"%string));
    split; try discriminate; try tauto; intros (? & ? & ?); discriminate.
Qed.

(** X11. The module loads exactly when SUPABASE_URL,
    SUPABASE_SERVICE_ROLE_KEY and DATABASE_URL are all set and not empty
    and SUPABASE_URL starts with "https://". *)
Theorem load_succeeds_iff (penv : ProcessEnv) :
  (exists cfg logged, EnvTs.load parseInt show penv = EnvTs.Loaded cfg logged)
  <->
  (exists c url, penv "SUPABASE_URL"%string = Some (c :: url) /\
                 startsWith (lit "https://") (c :: url) = true) /\
  (exists c key, penv "SUPABASE_SERVICE_ROLE_KEY"%string = Some (c :: key)) /\
  (exists c db, penv "DATABASE_URL"%string = Some (c :: db)).
Proof.
  unfold EnvTs.load.
  destruct (EnvTs.missingVars penv) as [|m ms] eqn:Em.
  - apply missingVars_nil_iff in Em. destruct Em as (H1 & H2 & H3).
    apply falsy_false_iff in H1, H2, H3.
    destruct H1 as (c1 & u & H1). cbn [length Nat.ltb Nat.leb]. rewrite H1.
    destruct (startsWith (lit "https://") (c1 :: u)) eqn:Es; cbn [negb].
    + split; [intros _ | intros _; eexists; eexists; reflexivity].
      split; [exists c1, u; split; [reflexivity | exact Es]|].
      split; assumption.
    + split; [intros (cfg & lg & [=])|].
      intros ((c & url & [= <- <-] & Hs) & _). congruence.
  - cbn [length Nat.ltb Nat.leb]. split; [intros (cfg & lg & [=])|].
    intros ((c1 & u & H1 & _) & (c2 & k & H2) & (c3 & d & H3)).
    assert (Hnil : EnvTs.missingVars penv = []).
    { apply missingVars_nil_iff. rewrite H1, H2, H3. repeat split. }
    congruence.
Qed.

(** X12. When a required variable is unset or empty the module throws the
    message that lists the missing names: exactly the required names whose
    variable is unset or empty, in the order SUPABASE_URL,
    SUPABASE_SERVICE_ROLE_KEY, DATABASE_URL; this comes before any look at
    the protocol.  When all three are there and SUPABASE_URL does not
    start with "https://", it throws the HTTPS message.  It throws nothing
    else: the method call on SUPABASE_URL never meets [undefined]. *)
Theorem load_failures (penv : ProcessEnv) (msg : jsstring) :
  EnvTs.load parseInt show penv = EnvTs.Thrown msg ->
  let missing :=
    filter (fun name => EnvTs.falsy (penv name))
      ["SUPABASE_URL"; "SUPABASE_SERVICE_ROLE_KEY"; "DATABASE_URL"]%string in
  (missing <> [] /\ msg = EnvTs.missing_message missing) \/
  (missing = [] /\ msg = EnvTs.https_message /\
   exists url, penv "SUPABASE_URL"%string = Some url /\
               startsWith (lit "https://") url = false).
Proof.
  cbv zeta. rewrite <- missingVars_filter. unfold EnvTs.load.
  destruct (EnvTs.missingVars penv) as [|m ms] eqn:Em.
  - apply missingVars_nil_iff in Em. destruct Em as (H1 & _).
    apply falsy_false_iff in H1. destruct H1 as (c1 & u & H1).
    cbn [length Nat.ltb Nat.leb]. rewrite H1.
    destruct (startsWith (lit "https://") (c1 :: u)) eqn:Es; cbn [negb];
      [discriminate|].
    intros [= <-]. right. split; [reflexivity|]. split; [reflexivity|].
    exists (c1 :: u). split; [reflexivity | exact Es].
  - cbn [length Nat.ltb Nat.leb]. intros [= <-]. left.
    split; [discriminate | reflexivity].
Qed.

End LoadFacts.

(** With SUPABASE_URL unset and DATABASE_URL empty, both are named, in
    this order. *)
Lemma load_failures_witness :
  EnvTs.load (fun _ => tt) (fun _ => []) EnvTs.poor_penv
  = EnvTs.Thrown
      (EnvTs.missing_message ["SUPABASE_URL"; "DATABASE_URL"]%string) /\
  filter (fun name => EnvTs.falsy (EnvTs.poor_penv name))
    ["SUPABASE_URL"; "SUPABASE_SERVICE_ROLE_KEY"; "DATABASE_URL"]%string
  = ["SUPABASE_URL"; "DATABASE_URL"]%string.
Proof.
  assert (Hrun :
    EnvTs.load (fun _ => tt) (fun _ => []) EnvTs.poor_penv
    = EnvTs.Thrown
        (EnvTs.missing_message ["SUPABASE_URL"; "DATABASE_URL"]%string))
    by (vm_compute; reflexivity).
  split; [exact Hrun|].
  destruct (@load_failures unit (fun _ => tt) (fun _ => []) EnvTs.poor_penv
              _ Hrun) as [[_ _] | [Hnil _]].
  - reflexivity.
  - discriminate Hnil.
Defined.

Section LoadedFacts.

Variable Number : Type.
Variable parseInt : jsstring -> Number.
Variable show : Number -> jsstring.

Lemma or_else_nonempty (a : option jsstring) (b : jsstring) :
  b <> [] -> or_else a b <> [].
Proof. destruct a as [[|c a]|]; simpl; auto; discriminate. Qed.

(** X13. In a configuration that loaded, SUPABASE_URL,
    SUPABASE_SERVICE_ROLE_KEY, DATABASE_URL and DIRECT_URL are strings
    that are not empty, SUPABASE_URL starts with "https://", DIRECT_URL is
    DATABASE_URL when its own variable is unset or empty, NODE_ENV,
    FRONTEND_URL and RATE_LIMIT_TIME_WINDOW are not empty, and the two
    last lines logged say that SUPABASE_URL and DATABASE_URL are set. *)
Theorem loaded_config_is_complete
  (penv : ProcessEnv) (cfg : EnvTs.EnvConfig Number) (logged : list jsstring) :
  EnvTs.load parseInt show penv = EnvTs.Loaded cfg logged ->
  (exists c url, EnvTs.SUPABASE_URL cfg = Some (c :: url) /\
                 startsWith (lit "https://") (c :: url) = true) /\
  (exists c key, EnvTs.SUPABASE_SERVICE_ROLE_KEY cfg = Some (c :: key)) /\
  (exists c db,
     EnvTs.DATABASE_URL cfg = Some (c :: db) /\
     exists c' direct,
       EnvTs.DIRECT_URL cfg = Some (c' :: direct) /\
       (EnvTs.falsy (penv "DIRECT_URL"%string) = true ->
        c' :: direct = c :: db)) /\
  EnvTs.NODE_ENV cfg <> [] /\
  EnvTs.FRONTEND_URL cfg <> [] /\
  EnvTs.RATE_LIMIT_TIME_WINDOW cfg <> [] /\
  nth_error logged 4 = Some (lit "- SUPABASE_URL: " ++ EnvTs.set_mark) /\
  nth_error logged 5 = Some (lit "- DATABASE_URL: " ++ EnvTs.set_mark).
Proof.
  intros Hload.
  assert (Hok : exists cfg' lg',
             EnvTs.load parseInt show penv = EnvTs.Loaded cfg' lg')
    by (exists cfg, logged; exact Hload).
  unfold EnvTs.load in Hload.
  destruct (0 <? length (EnvTs.missingVars penv)) eqn:Em;
    [discriminate Hload|].
  assert (Hnil : EnvTs.missingVars penv = []).
  { destruct (EnvTs.missingVars penv); [reflexivity | discriminate Em]. }
  apply missingVars_nil_iff in Hnil. destruct Hnil as (H1 & H2 & H3).
  pose proof H1 as F1. pose proof H3 as F3.
  apply falsy_false_iff in H1, H2, H3.
  destruct H1 as (c1 & u & H1), H2 as (c2 & k & H2), H3 as (c3 & d & H3).
  rewrite H1 in Hload.
  destruct (startsWith (lit "https://") (c1 :: u)) eqn:Es; cbn [negb] in Hload;
    [|discriminate Hload].
  injection Hload as <- <-.
  unfold EnvTs.log_lines, EnvTs.make_env.
  cbn [EnvTs.SUPABASE_URL EnvTs.SUPABASE_SERVICE_ROLE_KEY EnvTs.DATABASE_URL
       EnvTs.DIRECT_URL EnvTs.NODE_ENV EnvTs.FRONTEND_URL
       EnvTs.RATE_LIMIT_TIME_WINDOW nth_error].
  rewrite F1, F3.
  split; [exists c1, u; split; [exact H1 | exact Es]|].
  split; [exists c2, k; exact H2|].
  split.
  { exists c3, d. split; [exact H3|]. unfold EnvTs.or_value.
    destruct (EnvTs.falsy (penv "DIRECT_URL"%string)) eqn:Ed.
    - exists c3, d. split; [exact H3 | reflexivity].
    - apply falsy_false_iff in Ed. destruct Ed as (c' & w & Ed).
      exists c', w. split; [exact Ed | discriminate]. }
  split; [apply or_else_nonempty; discriminate|].
  split; [apply or_else_nonempty; discriminate|].
  split; [apply or_else_nonempty; discriminate|].
  split; reflexivity.
Qed.

End LoadedFacts.

Lemma loaded_config_is_complete_witness :
  exists cfg logged,
    EnvTs.load (fun _ => tt) (fun _ => []) EnvTs.good_penv
    = EnvTs.Loaded cfg logged /\
    EnvTs.DIRECT_URL cfg = Some (lit "postgres://db") /\
    EnvTs.NODE_ENV cfg <> [].
Proof.
  eexists; eexists. split; [vm_compute; reflexivity|].
  split; [reflexivity|].
  refine (proj1 (proj2 (proj2 (proj2
            (@loaded_config_is_complete unit (fun _ => tt) (fun _ => [])
               EnvTs.good_penv _ _ _))))).
  vm_compute. reflexivity.
Defined.

(** ** The origins the API server admits *)

(** An address passes the test when it is [before], a label, [after]. *)
Lemma test_complete (re : Cors.OriginRegExp) (label : jsstring) :
  label <> [] ->
  forallb Cors.class_label label = true ->
  Cors.test re (Cors.before re ++ label ++ Cors.after re) = true.
Proof.
  intros Hne Hcl. unfold Cors.test.
  set (b := Cors.before re). set (a := Cors.after re).
  assert (H1 : startsWith b (b ++ label ++ a) = true)
    by (apply startsWith_spec; eexists; reflexivity).
  assert (H2 : endsWith a (b ++ label ++ a) = true).
  { apply endsWith_spec. exists (b ++ label). rewrite <- app_assoc.
    reflexivity. }
  assert (Hlen : length label <> 0)
    by (destruct label; [contradiction | discriminate]).
  assert (H3 : (length b + length a <? length (b ++ label ++ a)) = true).
  { apply Nat.ltb_lt. rewrite !length_app. lia. }
  rewrite H1, H2, H3. cbn [andb].
  rewrite skipn_app, skipn_all, Nat.sub_diag. cbn [app skipn].
  replace (length (b ++ label ++ a) - length b - length a)
    with (length label) by (rewrite !length_app; lia).
  rewrite firstn_app, firstn_all, Nat.sub_diag. cbn [firstn].
  rewrite app_nil_r. exact Hcl.
Qed.

(** And only then. *)
Lemma test_sound (re : Cors.OriginRegExp) (s : jsstring) :
  Cors.test re s = true ->
  exists label,
    label <> [] /\ forallb Cors.class_label label = true /\
    s = Cors.before re ++ label ++ Cors.after re.
Proof.
  unfold Cors.test. set (b := Cors.before re). set (a := Cors.after re).
  rewrite !andb_true_iff, startsWith_spec, endsWith_spec, Nat.ltb_lt.
  intros [[[[t Ht] [u Hu]] Hlen] Hcl].
  assert (Hlt : length s = length b + length t)
    by (rewrite Ht, length_app; reflexivity).
  assert (Hlu : length s = length u + length a)
    by (rewrite Hu, length_app; reflexivity).
  assert (Hskip : skipn (length b) s = t).
  { rewrite Ht, skipn_app, skipn_all, Nat.sub_diag. reflexivity. }
  rewrite Hskip in Hcl.
  set (k := length s - length b - length a) in *.
  exists (firstn k t). split; [|split; [exact Hcl|]].
  - intros Hnil. apply (f_equal (@length _)) in Hnil.
    rewrite length_firstn in Hnil. simpl in Hnil. subst k. lia.
  - assert (Ha : skipn k t = a).
    { rewrite <- Hskip, skipn_skipn.
      replace (k + length b) with (length u) by (subst k; lia).
      rewrite Hu, skipn_app, skipn_all, Nat.sub_diag. reflexivity. }
    rewrite <- Ha, firstn_skipn. exact Ht.
Qed.

Lemma valid_is_label (s : jsstring) :
  Format.isValid (validateFormat s) = true ->
  s <> [] /\ forallb Cors.class_label s = true.
Proof.
  intros Hv. pose proof (proj1 (validateFormat_valid_iff s) Hv Charset) as [Hne Hall].
  split; [exact Hne|]. apply forallb_forall. intros c Hc.
  apply Hall, class_az09h_spec in Hc.
  unfold class_az09h, class_az09 in Hc. unfold Cors.class_label.
  destruct (is_lower c), (is_digit c), (is_hyphen c), (Cors.is_upper c);
    try reflexivity; discriminate Hc.
Qed.

(** X14. With no CORS_ORIGIN configured, the address that
    [getSubdomainUrl] builds for a subdomain of valid format matches one
    of the regular expressions in the list of [getCorsOrigins]: outside
    production the address with protocol http (host
    subdomain.localhost:8080), in production under the default domain the
    address with protocol https or http (host subdomain.uproom.com). *)
Theorem tenant_addresses_match_an_origin
  (env : ProcessEnv) (cors_origin : option jsstring) (subdomain : jsstring) :
  EnvTs.falsy cors_origin = true ->
  Format.isValid (validateFormat subdomain) = true ->
  (is_string (env "NODE_ENV"%string) (lit "production") = false ->
   exists re,
     In (Cors.OriginPattern re) (Cors.getCorsOrigins cors_origin) /\
     Cors.test re (getSubdomainUrl env subdomain (lit "http")) = true) /\
  (env "NODE_ENV"%string = Some (lit "production") ->
   EnvTs.falsy (env "VITE_DOMAIN"%string) = true ->
   forall protocol,
     protocol = lit "https" \/ protocol = lit "http" ->
     exists re,
       In (Cors.OriginPattern re) (Cors.getCorsOrigins cors_origin) /\
       Cors.test re (getSubdomainUrl env subdomain protocol) = true).
Proof.
  intros Hcors Hvalid. destruct (valid_is_label subdomain Hvalid) as [Hne Hcl].
  assert (Hlist : Cors.getCorsOrigins cors_origin =
                  map Cors.OriginString Cors.defaultOrigins ++
                  map Cors.OriginPattern Cors.regexOrigins).
  { destruct cors_origin as [[|c v]|]; [reflexivity | discriminate Hcors |
      reflexivity]. }
  rewrite Hlist. split.
  - intros Hdev.
    exists {| Cors.before := lit "http://"; Cors.after := lit ".localhost:8080" |}.
    split; [apply in_or_app; right; apply in_map; simpl; tauto|].
    unfold getSubdomainUrl. rewrite Hdev.
    exact (@test_complete
             {| Cors.before := lit "http://"; Cors.after := lit ".localhost:8080" |}
             subdomain Hne Hcl).
  - intros Hprod Hdom protocol Hp. unfold getSubdomainUrl. rewrite Hprod.
    replace (is_string (Some (lit "production")) (lit "production"))
      with true by (symmetry; apply eqb_refl).
    assert (Hd : or_else (env "VITE_DOMAIN"%string) (lit "uproom.com")
                 = lit "uproom.com").
    { destruct (env "VITE_DOMAIN"%string) as [[|c v]|];
        [reflexivity | discriminate Hdom | reflexivity]. }
    rewrite Hd. destruct Hp as [-> | ->].
    + exists {| Cors.before := lit "https://"; Cors.after := lit ".uproom.com" |}.
      split; [apply in_or_app; right; apply in_map; simpl; tauto|].
      exact (@test_complete
               {| Cors.before := lit "https://"; Cors.after := lit ".uproom.com" |}
               subdomain Hne Hcl).
    + exists {| Cors.before := lit "http://"; Cors.after := lit ".uproom.com" |}.
      split; [apply in_or_app; right; apply in_map; simpl; tauto|].
      exact (@test_complete
               {| Cors.before := lit "http://"; Cors.after := lit ".uproom.com" |}
               subdomain Hne Hcl).
Qed.

Lemma tenant_addresses_match_an_origin_witness :
  EnvTs.falsy None = true /\
  Format.isValid (validateFormat (lit "acme")) = true /\
  exists re,
    In (Cors.OriginPattern re) (Cors.getCorsOrigins None) /\
    Cors.test re (lit "http://acme.localhost:8080") = true.
Proof.
  split; [reflexivity|]. split; [reflexivity|].
  exact (proj1 (@tenant_addresses_match_an_origin development_env None
                  (lit "acme") eq_refl eq_refl) eq_refl).
Defined.

Lemma split_from_no_sep (sep : code_unit) (cur s piece : jsstring) :
  ~ In sep cur ->
  In piece (split_from sep cur s) -> ~ In sep piece.
Proof.
  revert cur; induction s as [|c s IH]; intros cur Hcur.
  - simpl. intros [<- | []]. rewrite <- in_rev. exact Hcur.
  - cbn [split_from]. destruct (N.eqb_spec c sep) as [->|Hne].
    + intros [<- | Hin].
      * rewrite <- in_rev. exact Hcur.
      * apply (IH [] (fun H => H) Hin).
    + apply IH. intros [E | H]; [exact (Hne E) | exact (Hcur H)].
Qed.

Lemma trimStart_suffix (s : jsstring) :
  exists u, s = u ++ Cors.trimStart s.
Proof.
  induction s as [|c s [u IH]]; [exists []; reflexivity|].
  cbn [Cors.trimStart]. destruct (Cors.is_whitespace c).
  - exists (c :: u). simpl. rewrite <- IH. reflexivity.
  - exists []. reflexivity.
Qed.

Lemma trimStart_head (s : jsstring) (c : code_unit) (t : jsstring) :
  Cors.trimStart s = c :: t -> Cors.is_whitespace c = false.
Proof.
  induction s as [|d s IH]; [discriminate|].
  cbn [Cors.trimStart]. destruct (Cors.is_whitespace d) eqn:Ed; [exact IH|].
  intros [= <- _]. exact Ed.
Qed.

(** What [trim] leaves is a stretch of the string with no white space at
    either end. *)
Lemma trim_shape (s : jsstring) :
  (forall c, In c (Cors.trim s) -> In c s) /\
  (forall c t, Cors.trim s = c :: t -> Cors.is_whitespace c = false) /\
  (forall c t, Cors.trim s = t ++ [c] -> Cors.is_whitespace c = false).
Proof.
  unfold Cors.trim.
  destruct (trimStart_suffix s) as [u Hu].
  destruct (trimStart_suffix (rev (Cors.trimStart s))) as [v Hv].
  set (t1 := Cors.trimStart s) in *.
  set (t2 := Cors.trimStart (rev t1)) in *.
  assert (Ht1 : t1 = rev t2 ++ rev v).
  { rewrite <- rev_app_distr, <- Hv, rev_involutive. reflexivity. }
  split; [|split].
  - intros c Hc. rewrite Hu. apply in_or_app. right.
    rewrite Ht1. apply in_or_app. left. exact Hc.
  - intros c t E. rewrite E in Ht1.
    apply (@trimStart_head s c (t ++ rev v)). exact Ht1.
  - intros c t E. apply (f_equal (@rev _)) in E.
    rewrite rev_involutive, rev_app_distr in E. simpl in E.
    exact (@trimStart_head (rev t1) c (rev t) E).
Qed.

(** X15. When CORS_ORIGIN is configured (a string that is not empty),
    [getCorsOrigins] returns strings only, none of the defaults and no
    regular expression: one entry for each comma-separated piece of the
    setting, so one more than there are commas, each piece without its
    white space at both ends and holding no comma. *)
Theorem configured_origins_are_trimmed_pieces
  (c : code_unit) (value : jsstring) :
  exists pieces,
    Cors.getCorsOrigins (Some (c :: value)) = map Cors.OriginString pieces /\
    length pieces = S (count_occ N.eq_dec (c :: value) Cors.comma) /\
    (forall p,
       In p pieces ->
       ~ In Cors.comma p /\
       (forall x t, p = x :: t -> Cors.is_whitespace x = false) /\
       (forall x t, p = t ++ [x] -> Cors.is_whitespace x = false)).
Proof.
  exists (map Cors.trim (split Cors.comma (c :: value))).
  split; [|split].
  - cbn [Cors.getCorsOrigins]. rewrite map_map. reflexivity.
  - rewrite length_map. unfold split. apply split_from_length.
  - intros p Hp. apply in_map_iff in Hp. destruct Hp as (q & <- & Hq).
    destruct (trim_shape q) as (Hsub & Hhead & Hlast).
    split; [|split; [exact Hhead | exact Hlast]].
    intros Hin. apply Hsub in Hin.
    exact (@split_from_no_sep Cors.comma [] (c :: value) q (fun H => H) Hq Hin).
Qed.

(** X16. Against a store whose answers do not change,
    [generateAlternatives] gives the same list from whatever state it
    starts: calling it again right after a call returns the same
    alternatives. *)
Theorem generateAlternatives_repeatable
  (World : Type) (single : jsstring -> World -> QueryResult * World)
  (answer : jsstring -> QueryResult) (base : jsstring) (count : Z)
  (env : Env World) :
  steady single answer ->
  exists kept env1 env2,
    generateAlternatives single base count env = (Normal kept, env1) /\
    generateAlternatives single base count env1 = (Normal kept, env2).
Proof.
  intros Hs.
  destruct (keep_passing_steady (candidates base count) env Hs) as (env1 & H1).
  destruct (keep_passing_steady (candidates base count) env1 Hs) as (env2 & H2).
  exists (filter (passes answer) (candidates base count)), env1, env2.
  rewrite !generateAlternatives_keep_passing. split; assumption.
Qed.

Lemma generateAlternatives_repeatable_witness :
  steady (table_single acme_table) (table_answer acme_table) /\
  exists kept env1 env2,
    generateAlternatives (table_single acme_table) (lit "acme") 5 (fresh tt)
    = (Normal kept, env1) /\
    generateAlternatives (table_single acme_table) (lit "acme") 5 env1
    = (Normal kept, env2).
Proof.
  assert (Hs : steady (table_single acme_table) (table_answer acme_table))
    by (intros key w; reflexivity).
  split; [exact Hs|].
  exact (@generateAlternatives_repeatable unit (table_single acme_table)
           (table_answer acme_table) (lit "acme") 5 (fresh tt) Hs).
Defined.

(** "?!?" holds no letter and no digit: nothing is left of it. *)
Lemma generateSubdomain_empty_iff_witness :
  (forall c, In c (toLowerCase_ascii_only (lit "?!?")) -> class_az09 c = false) /\
  generateSubdomain toLowerCase_ascii_only (lit "?!?") = [].
Proof.
  assert (H : forall c, In c (toLowerCase_ascii_only (lit "?!?")) ->
                        class_az09 c = false).
  { intros c Hc. vm_compute in Hc.
    destruct Hc as [<- | [<- | [<- | []]]]; reflexivity. }
  split; [exact H|].
  exact (proj2 (generateSubdomain_empty_iff toLowerCase_ascii_only (lit "?!?")) H).
Defined.
